(** * Diarizer: utterance reconstruction from a speech-recognition transcript

    A shallow embedding of [src/diarizer/lpa_diarizer.py]: the helpers
    [_build_ranges], [_speaker_for_time], the token harvest, the adjacent
    duplicate filter and the segmentation loop of
    [reconstruct_utterances_with_timestamps], [coalesce_utterances] and
    [utterances_to_jsonl].

    Conventions of the embedding.
    - A decoded JSON document is a value of [json].  A Python [dict] is an
      association list read by first match on the key.
    - A Python [float] is a binary64 number.  The finite ones are
      rationals, and the embedding keeps them as rationals of [Q]: a
      conversion rounds to the nearest binary64 number, ties to even
      ([round64]), and so does the one arithmetic operation of the
      source, the subtraction ([fsub]); comparisons are exact.  There
      is no infinity and no NaN.  The one infinity the source itself
      writes, the sort key default ["inf"], is the constructor [KInf]
      of the sort key type.
    - A Python [str] is a [string], one character per code point below 256.
    - A raised exception is the [Err] branch of [result]; the code has no
      other effect that the properties below depend on. *)

From Stdlib Require Import List String Ascii Bool ZArith QArith Qabs Lia.
From Stdlib Require Import Qreduction DecimalString Sorted Permutation.
Import ListNotations.
Local Open Scope string_scope.
Local Open Scope list_scope.
Local Open Scope Q_scope.

Set Implicit Arguments.
Set Warnings "-register-all".

(** ** Exceptions and results *)

Inductive exn : Type :=
| TypeError
| ValueError
| AttributeError
| IndexError
| KeyError
| OverflowError.

Inductive result (A : Type) : Type :=
| Ok (a : A)
| Err (e : exn).

Arguments Ok {A} a.
Arguments Err {A} e.

Definition bind {A B : Type} (r : result A) (k : A -> result B) : result B :=
  match r with
  | Ok a => k a
  | Err e => Err e
  end.

Notation "x <- r ;; k" := (bind r (fun x => k))
  (at level 61, r at next level, right associativity).

Definition is_ok {A : Type} (r : result A) : bool :=
  match r with Ok _ => true | Err _ => false end.

(** ** JSON values *)

Inductive json : Type :=
| JNull
| JBool (b : bool)
| JNum (q : Q)
| JStr (s : string)
| JList (l : list json)
| JDict (d : list (string * json)).

Definition pydict : Type := list (string * json).

Fixpoint lookup {V : Type} (k : string) (d : list (string * V)) : option V :=
  match d with
  | [] => None
  | (k', v) :: d' => if String.eqb k k' then Some v else lookup k d'
  end.

(** [d.get(k, default)] on a dict *)
Definition dict_get (d : pydict) (k : string) (default : json) : json :=
  match lookup k d with Some v => v | None => default end.

(** [v.get(k, default)] on any value: only a dict has the method. *)
Definition py_get (v : json) (k : string) (default : json) : result json :=
  match v with
  | JDict d => Ok (dict_get d k default)
  | _ => Err AttributeError
  end.

(** [v[0]] *)
Definition py_index0 (v : json) : result json :=
  match v with
  | JList (x :: _) => Ok x
  | JList [] => Err IndexError
  | JStr (String c _) => Ok (JStr (String c EmptyString))
  | JStr EmptyString => Err IndexError
  | JDict _ => Err KeyError
  | _ => Err TypeError
  end.

Definition is_dict (v : json) : bool :=
  match v with JDict _ => true | _ => false end.

(** [for x in v]: the elements a [for] loop visits, [TypeError] when the
    value is not iterable.  A string yields its characters and a dict
    its keys. *)
Fixpoint chars (s : string) : list json :=
  match s with
  | EmptyString => []
  | String c s' => JStr (String c EmptyString) :: chars s'
  end.

Definition py_iter (v : json) : result (list json) :=
  match v with
  | JList l => Ok l
  | JStr s => Ok (chars s)
  | JDict d => Ok (map (fun kv => JStr (fst kv)) d)
  | _ => Err TypeError
  end.

(** Truth value of a Python object. *)
Definition truthy (v : json) : bool :=
  match v with
  | JNull => false
  | JBool b => b
  | JNum q => negb (Qeq_bool q 0)
  | JStr s => negb (String.eqb s "")
  | JList l => match l with [] => false | _ => true end
  | JDict d => match d with [] => false | _ => true end
  end.

(** [a == b].  Numbers and booleans compare by numeric value, lists
    element by element, dicts key by key whatever the order. *)
Fixpoint py_eq (a b : json) {struct a} : bool :=
  match a, b with
  | JNull, JNull => true
  | JStr s, JStr t => String.eqb s t
  | JList l, JList m =>
      (fix eq_list (l : list json) (m : list json) {struct l} : bool :=
         match l, m with
         | [], [] => true
         | x :: l', y :: m' => py_eq x y && eq_list l' m'
         | _, _ => false
         end) l m
  | JDict d, JDict e =>
      Nat.eqb (List.length d) (List.length e) &&
      (fix eq_dict (d : pydict) : bool :=
         match d with
         | [] => true
         | (k, v) :: d' =>
             match lookup k e with
             | Some w => py_eq v w && eq_dict d'
             | None => false
             end
         end) d
  | JBool x, JBool y => Bool.eqb x y
  | JBool x, JNum q => Qeq_bool (if x then 1 else 0) q
  | JNum q, JBool y => Qeq_bool q (if y then 1 else 0)
  | JNum p, JNum q => Qeq_bool p q
  | _, _ => false
  end.

(** ** Numbers *)

Definition Qltb (a b : Q) : bool := negb (Qle_bool b a).

(** *** Binary64

    The numbers of the Python runtime: 53 bits of precision, the last
    bit never below 2^-1074, round to nearest, ties to even. *)

(** 2^e *)
Definition pow2 (e : Z) : Q :=
  match e with
  | Z0 => 1
  | Zpos p => Zpos (Pos.pow 2 p) # 1
  | Zneg p => 1 # Pos.pow 2 p
  end.

(** The exponent of the leading bit of a positive rational. *)
Definition ilog2 (a : Q) : Z :=
  let k := (Z.log2 (Qnum a) - Z.log2 (Zpos (Qden a)))%Z in
  if Qle_bool (pow2 k) a then k else (k - 1)%Z.

(** The integer nearest to a rational that is not negative, the even
    one of the two when it lies half way. *)
Definition nearest_even (a : Q) : Z :=
  let d := Zpos (Qden a) in
  let f := (Qnum a / d)%Z in
  let r := (2 * (Qnum a mod d))%Z in
  if (r <? d)%Z then f
  else if (d <? r)%Z then (f + 1)%Z
  else if Z.even f then f else (f + 1)%Z.

(** A positive rational rounded to 53 bits, the subnormal numbers
    having fewer. *)
Definition round_pos (a : Q) : Q :=
  let e := Z.max (ilog2 a - 52) (-1074) in
  Qred (inject_Z (nearest_even (a / pow2 e)) * pow2 e).

(** The binary64 number nearest to [q], as a fraction in lowest terms.
    The exponent is not bounded above: a result from 2^1024 on stands
    for what the runtime overflows on. *)
Definition round64 (q : Q) : Q :=
  let c := Qred q in
  match Qnum c with
  | Z0 => 0
  | Zpos _ => round_pos c
  | Zneg _ => - round_pos (- c)
  end.

(** A float literal of the source. *)
Definition double (q : Q) : Q := round64 q.

(** [a - b] on floats *)
Definition fsub (a b : Q) : Q := round64 (a - b).

Definition is_integer (q : Q) : bool := Pos.eqb (Qden (Qred q)) 1.

(** [float(n)] on a number.  A JSON number is an [int] or a [float]: an
    [int] is rounded, and raises [OverflowError] when it is beyond the
    binary64 range; a [float] is returned as it is, which the rounding
    does since it leaves a binary64 number unchanged. *)
Definition float_of_num (q : Q) : result Q :=
  if is_integer q && Qle_bool (pow2 1024) (Qabs (round64 q))
  then Err OverflowError
  else Ok (round64 q).

(** ** Strings *)

(** [c.isspace()] on the code points below 256 *)
Definition is_space (c : ascii) : bool :=
  let n := nat_of_ascii c in
  ((9 <=? n) && (n <=? 13) || (28 <=? n) && (n <=? 32)
   || (n =? 133) || (n =? 160))%nat.

Fixpoint lstrip (s : string) : string :=
  match s with
  | EmptyString => EmptyString
  | String c s' => if is_space c then lstrip s' else s
  end.

Fixpoint rstrip (s : string) : string :=
  match s with
  | EmptyString => EmptyString
  | String c s' =>
      match rstrip s' with
      | EmptyString => if is_space c then EmptyString else String c EmptyString
      | r => String c r
      end
  end.

(** [s.strip()] *)
Definition strip (s : string) : string := rstrip (lstrip s).

Fixpoint last_char (s : string) : option ascii :=
  match s with
  | EmptyString => None
  | String c EmptyString => Some c
  | String _ s' => last_char s'
  end.

Definition newline : ascii := ascii_of_nat 10.

(** [s.endswith((" ", "\n"))] *)
Definition ends_with_blank (s : string) : bool :=
  match last_char s with
  | Some c => Ascii.eqb c " "%char || Ascii.eqb c newline
  | None => false
  end.

Section Diarizer.

(** [float(s)] on a string: the parser of the Python runtime, which
    gives the binary64 number nearest to the literal, [None] where it
    raises [ValueError]. *)
Variable float_of_str : string -> option Q.

(** [float(v)] *)
Definition py_float (v : json) : result Q :=
  match v with
  | JNum q => float_of_num q
  | JBool true => Ok 1
  | JBool false => Ok 0
  | JStr s => match float_of_str s with Some q => Ok q | None => Err ValueError end
  | _ => Err TypeError
  end.

(** ** Deduplication (step 2 of the reconstruction) *)

(** [float(it.get("start_time", -1.0))] *)
Definition dedup_time (it : json) : result Q :=
  v <- py_get it "start_time" (JNum (-1)) ;; py_float v.

(** [it.get("alternatives", [{}])[0].get("content", "")] *)
Definition dedup_content (it : json) : result json :=
  alts <- py_get it "alternatives" (JList [JDict []]) ;;
  a0 <- py_index0 alts ;;
  py_get a0 "content" (JStr "").

(** The body of the [try]: [Ok true] when [curr] is appended. *)
Definition distinct_enough (prev curr : json) : result bool :=
  t1 <- dedup_time prev ;;
  t2 <- dedup_time curr ;;
  c1 <- dedup_content prev ;;
  c2 <- dedup_content curr ;;
  Ok (Qltb (double (1 # 1000)) (Qabs (fsub t2 t1)) || negb (py_eq c1 c2)).

(** [try ... except Exception: unique_items.append(curr)] *)
Definition dedup_keep (prev curr : json) : bool :=
  match distinct_enough prev curr with
  | Ok b => b
  | Err _ => true
  end.

(** The loop over [items[1:]].  [unique_items] is never empty there: it
    is kept as the list [front] and its last element [prev]. *)
Fixpoint dedup_loop (front : list json) (prev : json) (rest : list json)
  : list json :=
  match rest with
  | [] => front ++ [prev]
  | curr :: rest' =>
      if dedup_keep prev curr
      then dedup_loop (front ++ [prev]) curr rest'
      else dedup_loop front prev rest'
  end.

Definition dedup (items : list json) : list json :=
  match items with
  | [] => []
  | first :: rest => dedup_loop [] first rest
  end.

(** ** Speaker ranges *)

(** A range is the tuple [(start, end, speaker_label)]. *)
Definition range : Type := (Q * Q * json)%type.

Definition is_none (v : json) : bool :=
  match v with JNull => true | _ => false end.

(** The loop of [_build_ranges] over the segments: entries that are not
    dicts are skipped, entries without a label are dropped after their
    two times were converted. *)
Fixpoint ranges_of_segments (segments : list json) : result (list range) :=
  match segments with
  | [] => Ok []
  | JDict s :: rest =>
      st <- py_float (dict_get s "start_time" (JNum 0)) ;;
      en <- py_float (dict_get s "end_time" (JNum 0)) ;;
      let label := dict_get s "speaker_label" JNull in
      ranges <- ranges_of_segments rest ;;
      Ok (if is_none label then ranges else (st, en, label) :: ranges)
  | _ :: rest => ranges_of_segments rest
  end.

(** [needle in s] on strings *)
Fixpoint contains (needle s : string) : bool :=
  String.prefix needle s ||
  match s with
  | EmptyString => false
  | String _ s' => contains needle s'
  end.

(** [_build_ranges]; the caller has already checked that [results] is a
    dict, the other branches are what [in] and the subscript do on the
    values that are not. *)
Definition _build_ranges (transcribe : json) : result (list range) :=
  results <- py_get transcribe "results" (JDict []) ;;
  match results with
  | JDict r =>
      match lookup "speaker_labels" r with
      | None => Ok []
      | Some labels =>
          let segments :=
            match labels with
            | JList _ => labels
            | JDict l => dict_get l "segments" (JList [])
            | _ => JList []
            end in
          segs <- py_iter segments ;;
          ranges_of_segments segs
      end
  | JList l =>
      if existsb (py_eq (JStr "speaker_labels")) l then Err TypeError else Ok []
  | JStr s =>
      if contains "speaker_labels" s then Err TypeError else Ok []
  | _ => Err TypeError
  end.

Fixpoint _speaker_for_time (ranges : list range) (t : Q) (last_label : json)
  : json :=
  match ranges with
  | [] => last_label
  | (st, en, lab) :: rest =>
      if Qle_bool st t && Qltb t en then lab
      else _speaker_for_time rest t last_label
  end.

(** ** Token harvest (step 1 of the reconstruction) *)

(** The key of the sort, [float(x.get("start_time", "inf"))]: a token
    without a start time sorts last. *)
Inductive sort_key : Type :=
| KFin (q : Q)
| KInf.

Definition key_le (a b : sort_key) : bool :=
  match a, b with
  | KFin x, KFin y => Qle_bool x y
  | _, KInf => true
  | KInf, KFin _ => false
  end.

Definition start_key (it : json) : result sort_key :=
  match it with
  | JDict d =>
      match lookup "start_time" d with
      | None => Ok KInf
      | Some v => q <- py_float v ;; Ok (KFin q)
      end
  | _ => Err AttributeError
  end.

(** The keys are computed first, left to right; the first conversion
    that fails is the exception of the whole sort. *)
Fixpoint keyed (items : list json) : result (list (sort_key * json)) :=
  match items with
  | [] => Ok []
  | it :: rest =>
      k <- start_key it ;;
      krest <- keyed rest ;;
      Ok ((k, it) :: krest)
  end.

(** A stable sort: an element goes before the first later element whose
    key is not smaller. *)
Fixpoint insert_key (x : sort_key * json) (l : list (sort_key * json))
  : list (sort_key * json) :=
  match l with
  | [] => [x]
  | y :: l' =>
      if key_le (fst x) (fst y) then x :: l else y :: insert_key x l'
  end.

Definition sorted_by_start (items : list json) : result (list json) :=
  ks <- keyed items ;;
  Ok (map snd (fold_right insert_key [] ks)).

(** The loop over the channels: a dict contributes its ["items"] when
    that is a list, a list contributes itself. *)
Fixpoint channel_items (channels : list json) : list json :=
  match channels with
  | [] => []
  | JDict c :: rest =>
      match dict_get c "items" (JList []) with
      | JList c_items => c_items ++ channel_items rest
      | _ => channel_items rest
      end
  | JList c :: rest => c ++ channel_items rest
  | _ :: rest => channel_items rest
  end.

Definition harvest (results : pydict) : result (list json) :=
  match lookup "channel_labels" results with
  | Some c_labels =>
      let channels :=
        match c_labels with
        | JList _ => c_labels
        | JDict c => dict_get c "channels" (JList [])
        | _ => JList []
        end in
      chs <- py_iter channels ;;
      sorted_by_start (filter is_dict (channel_items chs))
  | None =>
      match lookup "items" results with
      | Some (JList raw) => Ok (filter is_dict raw)
      | Some _ => Ok []
      | None => Err ValueError
      end
  end.

(** ** Segmentation (steps 3 and 4 of the reconstruction) *)

(** The dict [cur]. *)
Record buffer : Type := Buffer {
  cur_speaker_label : json;
  cur_start_time : option Q;
  cur_end_time : option Q;
  text_parts : list json
}.

Record utterance : Type := Utterance {
  speaker_label : json;
  start_time : option Q;
  end_time : option Q;
  text : string
}.

Definition empty_buffer : buffer := Buffer JNull None None [].

(** The local variables of the loop: [utterances], [cur] and
    [last_word_end]. *)
Record seg_state : Type := SegState {
  utterances : list utterance;
  cur : buffer;
  last_word_end : option Q
}.

Definition init_state : seg_state := SegState [] empty_buffer None.

(** ["".join(parts)]: every part has to be a string. *)
Fixpoint join_parts (parts : list json) : result string :=
  match parts with
  | [] => Ok EmptyString
  | JStr p :: rest => r <- join_parts rest ;; Ok (p ++ r)%string
  | _ :: _ => Err TypeError
  end.

Definition nonempty {A : Type} (l : list A) : bool :=
  match l with [] => false | _ => true end.

(** The test of [_flush]. *)
Definition emits (b : buffer) : bool :=
  truthy (cur_speaker_label b) && nonempty (text_parts b).

(** [_flush], as the list of utterances it leaves; [cur] is reset by the
    caller, as the closure does on its last line. *)
Definition _flush (b : buffer) (us : list utterance)
  : result (list utterance) :=
  if emits b then
    t <- join_parts (text_parts b) ;;
    Ok (us ++ [Utterance (cur_speaker_label b) (cur_start_time b)
                         (cur_end_time b) (strip t)])
  else Ok us.

Definition gap_exceeded (gap_seconds : Q) (last_end : option Q) (st : Q)
  : bool :=
  match last_end with
  | Some e => Qltb gap_seconds (fsub st e)
  | None => false
  end.

(** [label != cur["speaker_label"] or (last_word_end is not None and
    st - last_word_end > gap_seconds)] *)
Definition flush_trigger (gap_seconds : Q) (s : seg_state) (label : json)
  (st : Q) : bool :=
  negb (py_eq label (cur_speaker_label (cur s)))
  || gap_exceeded gap_seconds (last_word_end s) st.

(** The space a pronunciation token puts before its text. *)
Definition add_space (parts : list json) : result (list json) :=
  match rev parts with
  | [] => Ok parts
  | JStr p :: _ => Ok (if ends_with_blank p then parts else parts ++ [JStr " "])
  | _ :: _ => Err AttributeError
  end.

(** The label of a pronunciation token: the one it carries when that is
    truthy, else the range lookup with the buffer's label as fallback. *)
Definition resolve_label (ranges : list range) (d : pydict) (st : Q)
  (b : buffer) : json :=
  let label := dict_get d "speaker_label" JNull in
  if truthy label then label
  else _speaker_for_time ranges st (cur_speaker_label b).

Definition pronunciation (ranges : list range) (gap_seconds : Q)
  (d : pydict) (content : json) (s : seg_state) : result seg_state :=
  st <- py_float (dict_get d "start_time" (JNum 0)) ;;
  en <- py_float (dict_get d "end_time" (JNum 0)) ;;
  let label := resolve_label ranges d st (cur s) in
  s1 <- (if flush_trigger gap_seconds s label st then
           us <- _flush (cur s) (utterances s) ;;
           Ok (SegState us (Buffer label (Some st) None []) (last_word_end s))
         else Ok s) ;;
  parts <- add_space (text_parts (cur s1)) ;;
  Ok (SegState (utterances s1)
        (Buffer (cur_speaker_label (cur s1)) (cur_start_time (cur s1))
                (Some en) (parts ++ [content]))
        (Some en)).

Definition punctuation (content : json) (s : seg_state) : seg_state :=
  SegState (utterances s)
    (Buffer (cur_speaker_label (cur s)) (cur_start_time (cur s))
            (cur_end_time (cur s)) (text_parts (cur s) ++ [content]))
    (last_word_end s).

(** [alts[0].get("content", "") if isinstance(alts[0], dict) else ""] *)
Definition content_of (a0 : json) : json :=
  match a0 with
  | JDict a => dict_get a "content" (JStr "")
  | _ => JStr ""
  end.

(** One turn of [for it in items]. *)
Definition seg_step (ranges : list range) (gap_seconds : Q)
  (s : seg_state) (it : json) : result seg_state :=
  match it with
  | JDict d =>
      match dict_get d "alternatives" (JList []) with
      | JList (a0 :: _) =>
          let content := content_of a0 in
          if py_eq (dict_get d "type" JNull) (JStr "pronunciation")
          then pronunciation ranges gap_seconds d content s
          else Ok (punctuation content s)
      | _ => Ok s
      end
  | _ => Ok s
  end.

Fixpoint seg_loop (ranges : list range) (gap_seconds : Q)
  (items : list json) (s : seg_state) : result seg_state :=
  match items with
  | [] => Ok s
  | it :: rest =>
      s' <- seg_step ranges gap_seconds s it ;;
      seg_loop ranges gap_seconds rest s'
  end.

(** The loop and the last [_flush()]. *)
Definition segment (ranges : list range) (gap_seconds : Q)
  (items : list json) : result (list utterance) :=
  s <- seg_loop ranges gap_seconds items init_state ;;
  _flush (cur s) (utterances s).

Definition reconstruct_utterances_with_timestamps (transcribe : json)
  (gap_seconds : Q) : result (list utterance) :=
  results <- py_get transcribe "results" (JDict []) ;;
  match results with
  | JDict r =>
      items <- harvest r ;;
      let items := dedup items in
      ranges <- _build_ranges transcribe ;;
      segment ranges gap_seconds items
  | _ => Err TypeError
  end.

(** The default of [gap_seconds], 1.2. *)
Definition default_gap : Q := double (12 # 10).

End Diarizer.

(** ** Coalescing *)

(** [last["text"]] after the merge of [u]. *)
Definition merge_text (last_text u_text : string) : string :=
  ((if negb (String.eqb last_text "") && negb (ends_with_blank last_text)
    then last_text ++ " " else last_text) ++ u_text)%string.

Definition merge (last u : utterance) : utterance :=
  Utterance (speaker_label last) (start_time last) (end_time u)
            (merge_text (text last) (text u)).

(** [True if gap_seconds is None else
    (u["start_time"] - last["end_time"] <= gap_seconds)] *)
Definition gap_ok (gap_seconds : option Q) (u last : utterance)
  : result bool :=
  match gap_seconds with
  | None => Ok true
  | Some g =>
      match start_time u, end_time last with
      | Some s, Some e => Ok (Qle_bool (fsub s e) g)
      | _, _ => Err TypeError
      end
  end.

Definition same_speaker (u last : utterance) : bool :=
  py_eq (speaker_label u) (speaker_label last).

(** The loop over [utterances[1:]]; [merged] is [front ++ [last]]. *)
Fixpoint coalesce_loop (gap_seconds : option Q) (front : list utterance)
  (last : utterance) (rest : list utterance) : result (list utterance) :=
  match rest with
  | [] => Ok (front ++ [last])
  | u :: rest' =>
      ok <- gap_ok gap_seconds u last ;;
      if same_speaker u last && ok
      then coalesce_loop gap_seconds front (merge last u) rest'
      else coalesce_loop gap_seconds (front ++ [last]) u rest'
  end.

Definition coalesce_utterances (us : list utterance)
  (gap_seconds : option Q) : result (list utterance) :=
  match us with
  | [] => Ok []
  | first :: rest => coalesce_loop gap_seconds [] first rest
  end.

(** ** Decimal literals

    [float] on the plain decimal literals ([12], [-0.5], [3.25]) that
    the examples below use: the value of the digits, rounded. *)

Definition digit_of (c : ascii) : option Z :=
  let n := nat_of_ascii c in
  if ((48 <=? n) && (n <=? 57))%nat then Some (Z.of_nat (n - 48)) else None.

(** [num] is the value of the digits read so far, [den] the power of ten
    of the fraction digits among them. *)
Fixpoint read_digits (s : string) (in_frac : bool) (seen : bool)
  (num : Z) (den : positive) : option Q :=
  match s with
  | EmptyString => if seen then Some (Qred (num # den)) else None
  | String c s' =>
      if Ascii.eqb c "."%char then
        if in_frac then None else read_digits s' true seen num den
      else
        match digit_of c with
        | Some d =>
            read_digits s' in_frac true (10 * num + d)
              (if in_frac then 10 * den else den)%positive
        | None => None
        end
  end.

Definition decimal (s : string) : option Q :=
  match s with
  | String "-"%char s' =>
      match read_digits s' false false 0 1 with
      | Some q => Some (round64 (- q))
      | None => None
      end
  | _ =>
      match read_digits s false false 0 1 with
      | Some q => Some (round64 q)
      | None => None
      end
  end.

(** ** The record stream *)

(** The name map: the object that [json.loads] read in the reply of
    the naming model.  Its annotation is [Dict[str, str]]; the keys are
    strings, and nothing checks the values. *)
Definition speaker_map : Type := pydict.

(** [speaker_map.get(label, default)]: a list or a dict cannot be
    hashed, and no other value than a string equals a key. *)
Definition map_get (m : speaker_map) (label : json) (default : json)
  : result json :=
  match label with
  | JStr s => Ok (dict_get m s default)
  | JList _ | JDict _ => Err TypeError
  | _ => Ok default
  end.

(** [speaker_map.get(label, None)] *)
Definition name_of (m : speaker_map) (label : json) : result json :=
  map_get m label JNull.

Definition time_json (t : option Q) : json :=
  match t with Some q => JNum q | None => JNull end.

(** The dict of one row. *)
Definition row (u : utterance) (name : json) : json :=
  JDict [("start_time", time_json (start_time u));
         ("end_time", time_json (end_time u));
         ("speaker_label", speaker_label u);
         ("speaker_name", name);
         ("text", JStr (text u))].

Definition nl : string := String newline EmptyString.

Section Jsonl.

(** [json.dumps(v, ensure_ascii=False)] and [json.loads] of the Python
    library. *)
Variable dumps : json -> string.
Variable loads : string -> option json.

Fixpoint jsonl_rows (us : list utterance) (m : speaker_map)
  : result (list json) :=
  match us with
  | [] => Ok []
  | u :: rest =>
      name <- name_of m (speaker_label u) ;;
      rs <- jsonl_rows rest m ;;
      Ok (row u name :: rs)
  end.

Definition utterances_to_jsonl (us : list utterance) (m : speaker_map)
  : result string :=
  rs <- jsonl_rows us m ;;
  Ok (String.concat nl (map dumps rs)).

(** The lines of a text, as a reader of the file sees them: a newline
    ends a line, and there is no line after the last newline. *)
Fixpoint lines (s : string) : list string :=
  match s with
  | EmptyString => []
  | String c s' =>
      if Ascii.eqb c newline then EmptyString :: lines s'
      else
        match lines s' with
        | [] => [String c EmptyString]
        | l :: ls => String c l :: ls
        end
  end.

Definition parse_lines (out : string) : list (option json) :=
  map loads (lines out).

End Jsonl.

(** ** The duplicate filter as the specification words it

    The specification reads a token as a start time and a text, keeps
    the first token, and keeps a later one unless it is within the
    epsilon of the last retained token and has the same text; a token
    whose fields cannot be read is kept. *)

Section DedupSpec.

Variable float_of_str : string -> option Q.

(** The start time and the text of a token that has both, well formed. *)
Definition token_view (it : json) : option (Q * string) :=
  match it with
  | JDict d =>
      match lookup "start_time" d, lookup "alternatives" d with
      | Some v, Some (JList (JDict a :: _)) =>
          match py_float float_of_str v, lookup "content" a with
          | Ok t, Some (JStr c) => Some (t, c)
          | _, _ => None
          end
      | _, _ => None
      end
  | _ => None
  end.

Definition well_formed (it : json) : Prop := token_view it <> None.

(** The epsilon of the specification, 0.001 s, a float as the start
    times and their difference are. *)
Definition dedup_eps : Q := double (1 # 1000).

Definition is_duplicate (last_retained current : Q * string) : bool :=
  Qle_bool (Qabs (fsub (fst current) (fst last_retained))) dedup_eps
  && String.eqb (snd last_retained) (snd current).

Fixpoint dedup_spec_from (last_retained : json) (rest : list json)
  : list json :=
  match rest with
  | [] => []
  | current :: rest' =>
      match token_view last_retained, token_view current with
      | Some a, Some b =>
          if is_duplicate a b then dedup_spec_from last_retained rest'
          else current :: dedup_spec_from current rest'
      | _, _ => current :: dedup_spec_from current rest'
      end
  end.

Definition dedup_spec (items : list json) : list json :=
  match items with
  | [] => []
  | first :: rest => first :: dedup_spec_from first rest
  end.

End DedupSpec.

(** ** Predicates of the properties *)

(** [t] lies in the half-open interval of the range. *)
Definition in_range (r : range) (t : Q) : Prop :=
  fst (fst r) <= t /\ t < snd (fst r).

(** The label of the utterance is truthy: not null, not empty. *)
Definition labelled (u : utterance) : Prop :=
  truthy (speaker_label u) = true.

(** The utterance a flush makes of a buffer whose parts join to [t]. *)
Definition utterance_of (b : buffer) (t : string) : utterance :=
  Utterance (cur_speaker_label b) (cur_start_time b) (cur_end_time b)
            (strip t).

Definition is_str (v : json) : bool :=
  match v with JStr _ => true | _ => false end.

(** Two states of the loop that are the same but for text that the first
    one holds in front of the buffer under a label that is not truthy. *)
Definition differ_in_unlabelled_text (s1 s2 : seg_state) : Prop :=
  utterances s1 = utterances s2
  /\ last_word_end s1 = last_word_end s2
  /\ cur_speaker_label (cur s1) = cur_speaker_label (cur s2)
  /\ cur_start_time (cur s1) = cur_start_time (cur s2)
  /\ cur_end_time (cur s1) = cur_end_time (cur s2)
  /\ exists extra,
       text_parts (cur s1) = extra ++ text_parts (cur s2)
       /\ (extra = []
           \/ (truthy (cur_speaker_label (cur s1)) = false
               /\ forallb is_str extra = true)).

(** A token that is not a pronunciation and whose text, if the loop
    reads one, is a string. *)
Definition plain_punctuation (it : json) : bool :=
  match it with
  | JDict d =>
      negb (py_eq (dict_get d "type" JNull) (JStr "pronunciation"))
      && match dict_get d "alternatives" (JList []) with
         | JList (a0 :: _) => is_str (content_of a0)
         | _ => true
         end
  | _ => false
  end.

(** Two runs end alike: with related values, or with one exception. *)
Definition result_rel {A : Type} (R : A -> A -> Prop) (r1 r2 : result A)
  : Prop :=
  match r1, r2 with
  | Ok a, Ok b => R a b
  | Err x, Err y => x = y
  | _, _ => False
  end.

(** A list on which the coalescing has nothing left to merge, read from
    [last] on: each utterance fails the merge test against the one
    before it. *)
Fixpoint settled_from (gap_seconds : option Q) (last : utterance)
  (rest : list utterance) : Prop :=
  match rest with
  | [] => True
  | u :: rest' =>
      (exists ok, gap_ok gap_seconds u last = Ok ok
                  /\ same_speaker u last && ok = false)
      /\ settled_from gap_seconds u rest'
  end.

(** *** Reading the record stream back *)

Fixpoint has_newline (s : string) : bool :=
  match s with
  | EmptyString => false
  | String c s' => Ascii.eqb c newline || has_newline s'
  end.

(** [r[k]] on a parsed row *)
Definition field (k : string) (r : json) : option json :=
  match r with
  | JDict d => lookup k d
  | _ => None
  end.

(** The tuple [(speaker_label, start_time, end_time, text)]. *)
Definition tuple : Type := (json * json * json * json)%type.

(** A time as a row carries it: a number, null for [None]. *)
Definition number_or_null (t : option Q) : json :=
  match t with
  | Some q => JNum q
  | None => JNull
  end.

Definition utterance_tuple (u : utterance) : tuple :=
  (speaker_label u, number_or_null (start_time u),
   number_or_null (end_time u), JStr (text u)).

Definition record_tuple (r : json) : option tuple :=
  match field "speaker_label" r, field "start_time" r,
        field "end_time" r, field "text" r with
  | Some l, Some s, Some e, Some t => Some (l, s, e, t)
  | _, _, _, _ => None
  end.

(** The value the map gives a label, if it has the label as a key. *)
Definition mapped (m : speaker_map) (label : json) : option json :=
  match label with
  | JStr s => lookup s m
  | _ => None
  end.

(** The name of the row of [u]: the value of the map, null without
    one. *)
Definition name_json (m : speaker_map) (u : utterance) : json :=
  match mapped m (speaker_label u) with
  | Some n => n
  | None => JNull
  end.

(** The map gives no label the value null. *)
Definition no_null_name (m : speaker_map) : Prop :=
  Forall (fun kv : string * json => snd kv <> JNull) m.

(** The line feed, as the source writes it in ["\n".join]. *)
Definition line_feed : string := String "010"%char EmptyString.

(** A label [speaker_map.get] accepts. *)
Definition hashable (v : json) : bool :=
  match v with
  | JList _ | JDict _ => false
  | _ => true
  end.

Definition and_then {A B : Type} (o : option A) (k : A -> option B)
  : option B :=
  match o with
  | Some a => k a
  | None => None
  end.

(** What the round trip asks of the JSON library on one row: the parser
    reads back what the writer wrote, and the writer leaves the row on
    one line that is not empty. *)
Definition faithful (dumps : json -> string) (loads : string -> option json)
  (r : json) : Prop :=
  loads (dumps r) = Some r
  /\ dumps r <> EmptyString
  /\ has_newline (dumps r) = false.

(** *** A writer for the examples

    A compact writer of JSON values, and the reader that knows the rows
    that were written.  It is not the format of the Python library; the
    examples only need a writer that is faithful on their rows. *)

Definition dquote : string := String (ascii_of_nat 34) EmptyString.

Definition show_Z (z : Z) : string := NilZero.string_of_int (Z.to_int z).

Definition show_Q (q : Q) : string :=
  (show_Z (Qnum q) ++ "/" ++ show_Z (Zpos (Qden q)))%string.

Fixpoint show (v : json) : string :=
  match v with
  | JNull => "null"
  | JBool true => "true"
  | JBool false => "false"
  | JNum q => show_Q q
  | JStr s => dquote ++ s ++ dquote
  | JList l =>
      "[" ++ (fix show_list (l : list json) : string :=
                match l with
                | [] => ""
                | x :: l' => show x ++ "," ++ show_list l'
                end) l ++ "]"
  | JDict d =>
      "{" ++ (fix show_dict (d : pydict) : string :=
                match d with
                | [] => ""
                | (k, x) :: d' =>
                    dquote ++ k ++ dquote ++ ":" ++ show x ++ ","
                    ++ show_dict d'
                end) d ++ "}"
  end%string.

Definition read_among (known : list json) (line : string) : option json :=
  find (fun v => String.eqb (show v) line) known.

(** *** Order of the utterances *)

Section Timeline.

Variable float_of_str : string -> option Q.

(** The start and end of a token that the loop reads as a
    pronunciation. *)
Definition span_of (it : json) : option (Q * Q) :=
  match it with
  | JDict d =>
      match dict_get d "alternatives" (JList []) with
      | JList (_ :: _) =>
          if py_eq (dict_get d "type" JNull) (JStr "pronunciation") then
            match py_float float_of_str (dict_get d "start_time" (JNum 0)),
                  py_float float_of_str (dict_get d "end_time" (JNum 0)) with
            | Ok st, Ok en => Some (st, en)
            | _, _ => None
            end
          else None
      | _ => None
      end
  | _ => None
  end.

Fixpoint timeline (items : list json) : list (Q * Q) :=
  match items with
  | [] => []
  | it :: rest =>
      match span_of it with
      | Some p => p :: timeline rest
      | None => timeline rest
      end
  end.

(** The tokens the segmentation receives: steps 1 and 2. *)
Definition read_tokens (transcribe : json) : result (list json) :=
  results <- py_get transcribe "results" (JDict []) ;;
  match results with
  | JDict r => items <- harvest float_of_str r ;; Ok (dedup float_of_str items)
  | _ => Err TypeError
  end.

End Timeline.












(** *** Structural errors and tidy documents *)

(** The [results] field is there and is not an object. *)
Definition results_not_object (transcribe : json) : bool :=
  match transcribe with
  | JDict top => negb (is_dict (dict_get top "results" (JDict [])))
  | _ => false
  end.

(** [results] has neither [items] nor [channel_labels]. *)
Definition no_token_source (transcribe : json) : bool :=
  match transcribe with
  | JDict top =>
      match dict_get top "results" (JDict []) with
      | JDict r =>
          match lookup "channel_labels" r, lookup "items" r with
          | None, None => true
          | _, _ => false
          end
      | _ => false
      end
  | _ => false
  end.

Definition structural_error (transcribe : json) : bool :=
  results_not_object transcribe || no_token_source transcribe.

Section Tidy.

Variable float_of_str : string -> option Q.

(** A time field, when it is there, is a number or a string that
    [float] reads. *)
Definition time_ok (d : pydict) (k : string) : bool :=
  match lookup k d with
  | Some v => is_ok (py_float float_of_str v)
  | None => true
  end.

(** A token whose times, if any, are numbers and whose text, if the loop
    reads one, is a string. *)
Definition tidy_token (it : json) : bool :=
  match it with
  | JDict d =>
      time_ok d "start_time" && time_ok d "end_time"
      && match dict_get d "alternatives" (JList []) with
         | JList (a0 :: _) => is_str (content_of a0)
         | _ => true
         end
  | _ => true
  end.

Definition tidy_segment (sg : json) : bool :=
  match sg with
  | JDict d => time_ok d "start_time" && time_ok d "end_time"
  | _ => true
  end.

(** The value the loop over the channels iterates. *)
Definition channels_of (c_labels : json) : json :=
  match c_labels with
  | JList _ => c_labels
  | JDict c => dict_get c "channels" (JList [])
  | _ => JList []
  end.

(** The value the loop over the segments iterates. *)
Definition segments_of (labels : json) : json :=
  match labels with
  | JList _ => labels
  | JDict l => dict_get l "segments" (JList [])
  | _ => JList []
  end.

Definition elements (v : json) : list json :=
  match py_iter v with
  | Ok l => l
  | Err _ => []
  end.

(** All the tokens of the document, before the filter and the sort. *)
Definition raw_tokens (r : pydict) : list json :=
  match lookup "channel_labels" r with
  | Some c_labels => channel_items (elements (channels_of c_labels))
  | None =>
      match lookup "items" r with
      | Some (JList raw) => raw
      | _ => []
      end
  end.

Definition tidy_results (r : pydict) : bool :=
  match lookup "channel_labels" r with
  | Some c_labels => is_ok (py_iter (channels_of c_labels))
  | None => true
  end
  && forallb tidy_token (raw_tokens r)
  && match lookup "speaker_labels" r with
     | Some labels =>
         is_ok (py_iter (segments_of labels))
         && forallb tidy_segment (elements (segments_of labels))
     | None => true
     end.

(** A document is tidy when it is an object, the channels and segments
    can be iterated, and every token and segment is tidy. *)
Definition tidy (transcribe : json) : bool :=
  match transcribe with
  | JDict top =>
      match dict_get top "results" (JDict []) with
      | JDict r => tidy_results r
      | _ => true
      end
  | _ => false
  end.

End Tidy.

(** ** Example documents *)

(** A token as the transcription service writes it. *)
Definition word (st en : string) (label : json) (c : string) : json :=
  JDict [("type", JStr "pronunciation");
         ("start_time", JStr st); ("end_time", JStr en);
         ("speaker_label", label);
         ("alternatives", JList [JDict [("content", JStr c)]])].

(** A punctuation token: it has no times. *)
Definition punct (c : string) : json :=
  JDict [("type", JStr "punctuation");
         ("alternatives", JList [JDict [("content", JStr c)]])].

Definition transcript (items : list json) : json :=
  JDict [("results", JDict [("items", JList items)])].

(** A word with any values for its times and a label of its own. *)
Definition spoken (l : string) (st en : json) (c : string) : json :=
  JDict [("type", JStr "pronunciation");
         ("start_time", st); ("end_time", en);
         ("speaker_label", JStr l);
         ("alternatives", JList [JDict [("content", JStr c)]])].

Definition spk_0 : json := JStr "spk_0".
Definition spk_1 : json := JStr "spk_1".

(** One speaker stops at 10.0 and resumes at 12.0. *)
Definition pause_items : list json :=
  [word "9.5" "10.0" spk_0 "hello"; word "12.0" "12.5" spk_0 "again"].

(** A word followed by two full stops. *)
Definition ellipsis_items : list json :=
  [word "0.0" "0.5" spk_0 "Wait"; punct "."; punct "."].

(** A word whose text is empty. *)
Definition silent_items : list json :=
  [word "0.0" "1.0" spk_0 ""].

(** The name map of the examples: only the first speaker is known. *)
Definition chair_map : speaker_map := [("spk_0", JStr "Chair Cruz")].

(** A name map as the naming model may return it: the label is a key,
    and its value is null. *)
Definition null_map : speaker_map := [("spk_0", JNull)].

Definition hearing : list utterance :=
  [Utterance spk_0 (Some (19 # 2)) (Some 10) "hello";
   Utterance spk_1 (Some 12) (Some (25 # 2)) "again"].

Definition hearing_rows : list json :=
  [row (Utterance spk_0 (Some (19 # 2)) (Some 10) "hello")
       (JStr "Chair Cruz");
   row (Utterance spk_1 (Some 12) (Some (25 # 2)) "again") JNull].





(** A word whose start time is null. *)
Definition null_start : json :=
  transcript
    [JDict [("type", JStr "pronunciation");
            ("start_time", JNull); ("end_time", JStr "1.0");
            ("speaker_label", spk_0);
            ("alternatives", JList [JDict [("content", JStr "hello")]])]].

(** One word without a label, in a document without speaker labels. *)
Definition unlabelled_word (st en : json) (c : string) : json :=
  transcript
    [JDict [("type", JStr "pronunciation");
            ("start_time", st); ("end_time", en);
            ("alternatives", JList [JDict [("content", JStr c)]])]].

(** ** The other renderers *)

Section Render.

(** [str(v)] on a value that is not a string, as the Python runtime
    writes it. *)
Variable repr_other : json -> string.

(** [str(v)], what an f-string puts for [{v}]. *)
Definition py_str (v : json) : string :=
  match v with
  | JStr s => s
  | _ => repr_other v
  end.

(** One line of the compact view, the label in square brackets. *)
Definition raw_line (u : utterance) : string :=
  ("[" ++ py_str (speaker_label u) ++ "] " ++ text u)%string.

Definition build_raw_for_bedrock (us : list utterance) : string :=
  String.concat nl (map raw_line us).

(** [speaker_map.get(label, "[UNKNOWN SPEAKER]")] *)
Definition display_name (m : speaker_map) (label : json) : result json :=
  map_get m label (JStr "[UNKNOWN SPEAKER]").

(** One block of the readable transcript, the name between asterisks. *)
Definition block (name : json) (u : utterance) : string :=
  ("**" ++ py_str name ++ ":** " ++ text u)%string.

Fixpoint diarized_blocks (us : list utterance) (m : speaker_map)
  : result (list string) :=
  match us with
  | [] => Ok []
  | u :: rest =>
      name <- display_name m (speaker_label u) ;;
      blocks <- diarized_blocks rest m ;;
      Ok (block name u :: blocks)
  end.

(** [s * n] on a string *)
Fixpoint repeat_string (s : string) (n : nat) : string :=
  match n with
  | O => EmptyString
  | S n' => (s ++ repeat_string s n')%string
  end.

(** The separator: a count that is not positive gives the empty
    string. *)
Definition separator (blank_lines : Z) : string :=
  repeat_string nl (Z.to_nat (blank_lines + 1)).

Definition format_diarized_lines_no_ts (us : list utterance)
  (m : speaker_map) (blank_lines : Z) : result string :=
  blocks <- diarized_blocks us m ;;
  Ok (String.concat (separator blank_lines) blocks ++ nl)%string.

End Render.

(** The sentinel of the readable transcript. *)
Definition unknown_speaker : json := JStr "[UNKNOWN SPEAKER]".

(** ** The reply of the naming model

    [re.search] with the pattern of an opening brace, anything, a
    closing brace, the dot matching newlines too: the match starts at
    the first opening brace and, the star being greedy, ends at the last
    closing brace after it. *)

Definition lbrace : ascii := ascii_of_nat 123.
Definition rbrace : ascii := ascii_of_nat 125.

(** The suffix that starts at the first [c]. *)
Fixpoint from_first (c : ascii) (s : string) : option string :=
  match s with
  | EmptyString => None
  | String a s' => if Ascii.eqb a c then Some s else from_first c s'
  end.

(** The prefix that ends at the last [c]. *)
Fixpoint upto_last (c : ascii) (s : string) : option string :=
  match s with
  | EmptyString => None
  | String a s' =>
      match upto_last c s' with
      | Some p => Some (String a p)
      | None => if Ascii.eqb a c then Some (String a EmptyString) else None
      end
  end.

(** [m.group(0)], [None] when there is no match. *)
Definition extract_object (reply : string) : option string :=
  match from_first lbrace reply with
  | Some (String a rest) =>
      match upto_last rbrace rest with
      | Some p => Some (String a p)
      | None => None
      end
  | _ => None
  end.

(** ** The handler *)

(** [a or b] *)
Definition py_or (a b : json) : json := if truthy a then a else b.

(** [v[k]] with a string key *)
Definition py_item (v : json) (k : string) : result json :=
  match v with
  | JDict d =>
      match lookup k d with
      | Some x => Ok x
      | None => Err KeyError
      end
  | _ => Err TypeError
  end.

(** [next((p["value"] for p in props if p.get("name") == name), None)] *)
Fixpoint first_value (name : string) (props : list json) : result json :=
  match props with
  | [] => Ok JNull
  | p :: rest =>
      n <- py_get p "name" JNull ;;
      if py_eq n (JStr name) then py_item p "value"
      else first_value name rest
  end.

(** The three local variables of the input parsing. *)
Record inputs : Type := Inputs {
  s3_bucket : json;
  transcript_key : json;
  base_filename : json
}.

Definition default_inputs : inputs :=
  Inputs JNull JNull (JStr "Legislative_Meeting_Output").

(** Where the outputs go. *)
Definition OUTPUT_PREFIX : string := "diarized-transcription/".

Section Handler.

Variable float_of_str : string -> option Q.
Variable loads : string -> option json.
Variable dumps : json -> string.
Variable repr_other : json -> string.

(** [get_object] of the store, read and decoded. *)
Variable fetch : json -> json -> result string.

(** [put_object] of the store. *)
Variable put : json -> string -> string -> result unit.

(** [get_speaker_map_via_bedrock]: it catches every exception and then
    returns the empty map. *)
Variable oracle : string -> speaker_map.

(** The [body] branch: the assignments are made when [body] is a string
    that parses to a dict, and an exception leaves the variables as
    they were. *)
Definition from_body (event : pydict) (i : inputs) : inputs :=
  match lookup "body" event with
  | Some (JStr body) =>
      match loads body with
      | Some (JDict b) =>
          Inputs
            (py_or (dict_get b "transcript_bucket" JNull)
                   (dict_get b "s3_bucket" JNull))
            (py_or (dict_get b "transcript_key" JNull)
                   (dict_get b "s3_key" JNull))
            (dict_get b "base_filename" (base_filename i))
      | _ => i
      end
  | _ => i
  end.

(** [if not s3_bucket]: the top level of the event. *)
Definition from_top (event : pydict) (i : inputs) : inputs :=
  if truthy (s3_bucket i) then i
  else Inputs (dict_get event "transcript_bucket" JNull)
              (dict_get event "transcript_key" JNull)
              (dict_get event "base_filename" (base_filename i)).

Definition complete (i : inputs) : bool :=
  truthy (s3_bucket i) && truthy (transcript_key i).

(** The validation, with the fallback to the format of the agent. *)
Definition from_agent (event : pydict) (i : inputs) : result inputs :=
  if complete i then Ok i
  else
    i' <- match lookup "requestBody" event with
          | Some request =>
              content <- py_item request "content" ;;
              app <- py_item content "application/json" ;;
              properties <- py_item app "properties" ;;
              props <- py_iter properties ;;
              b <- first_value "s3_bucket" props ;;
              k <- first_value "transcript_key" props ;;
              Ok (Inputs b k (base_filename i))
          | None => Ok i
          end ;;
    if complete i' then Ok i' else Err ValueError.

Definition parse_event (event : pydict) : result inputs :=
  from_agent event (from_top event (from_body event default_inputs)).

Definition txt_key_of (base : json) : string :=
  (OUTPUT_PREFIX ++ py_str repr_other base ++ "_diarized.txt")%string.

Definition jsonl_key_of (base : json) : string :=
  (OUTPUT_PREFIX ++ py_str repr_other base ++ "_diarized.jsonl")%string.

(** An object written to the store: bucket, key and body. *)
Definition write : Type := (json * string * string)%type.

(** All that the handler computes before it writes. *)
Record outputs : Type := Outputs {
  out_inputs : inputs;
  final_txt : string;
  final_jsonl : string
}.

Definition prepare (event : pydict) : result outputs :=
  i <- parse_event event ;;
  body <- fetch (s3_bucket i) (transcript_key i) ;;
  transcript_data <-
    match loads body with Some d => Ok d | None => Err ValueError end ;;
  us <- reconstruct_utterances_with_timestamps float_of_str transcript_data
          default_gap ;;
  if nonempty us then
    let raw_for_bedrock := build_raw_for_bedrock repr_other us in
    let m := oracle raw_for_bedrock in
    coalesced_for_txt <- coalesce_utterances us None ;;
    txt <- format_diarized_lines_no_ts repr_other coalesced_for_txt m 2 ;;
    jsonl <- utterances_to_jsonl dumps us m ;;
    Ok (Outputs i txt jsonl)
  else Err ValueError.

Definition response_of (o : outputs) : json :=
  let i := out_inputs o in
  JDict [("statusCode", JNum 200);
         ("diarized_bucket", s3_bucket i);
         ("diarized_txt_key", JStr (txt_key_of (base_filename i)));
         ("diarized_jsonl_key", JStr (jsonl_key_of (base_filename i)));
         ("diarized_text_preview", JStr (substring 0 1000 (final_txt o)));
         ("base_filename", base_filename i)].

(** The handler, as the objects it has written when it returns or
    raises, and the value it returns or the exception it raises. *)
Definition lambda_handler (event : pydict) : list write * result json :=
  match prepare event with
  | Err e => ([], Err e)
  | Ok o =>
      let i := out_inputs o in
      let w1 := (s3_bucket i, txt_key_of (base_filename i), final_txt o) in
      let w2 :=
        (s3_bucket i, jsonl_key_of (base_filename i), final_jsonl o) in
      match put (s3_bucket i) (txt_key_of (base_filename i)) (final_txt o)
      with
      | Err e => ([], Err e)
      | Ok _ =>
          match put (s3_bucket i) (jsonl_key_of (base_filename i))
                    (final_jsonl o) with
          | Err e => ([w1], Err e)
          | Ok _ => ([w1; w2], Ok (response_of o))
          end
      end
  end.

End Handler.

(** ** Predicates of the further properties *)

(** [l] is [m] with some elements left out, the order kept. *)
Inductive subseq {A : Type} : list A -> list A -> Prop :=
| subseq_nil : subseq [] []
| subseq_skip (x : A) (l m : list A) : subseq l m -> subseq l (x :: m)
| subseq_keep (x : A) (l m : list A) : subseq l m -> subseq (x :: l) (x :: m).

(** Read from [prev] on, each token is one the filter keeps after the
    token before it. *)
Fixpoint kept_chain (float_of_str : string -> option Q) (prev : json)
  (rest : list json) : Prop :=
  match rest with
  | [] => True
  | curr :: rest' =>
      dedup_keep float_of_str prev curr = true
      /\ kept_chain float_of_str curr rest'
  end.

(** A field of the token is there and cannot be read by the filter. *)
Definition unreadable (float_of_str : string -> option Q) (it : json)
  : Prop :=
  exists d,
    it = JDict d
    /\ ((exists v e, lookup "start_time" d = Some v
                     /\ py_float float_of_str v = Err e)
        \/ lookup "alternatives" d = Some (JList [])
        \/ (exists v, lookup "alternatives" d = Some v
                      /\ forall l, v <> JList l)
        \/ (exists a0 more, lookup "alternatives" d = Some (JList (a0 :: more))
                            /\ is_dict a0 = false)).

(** The two keys are equal in the order of the sort. *)
Definition same_key (k : sort_key) (x : sort_key * json) : bool :=
  key_le k (fst x) && key_le (fst x) k.

(** The two shapes the code accepts for a section. *)
Definition list_or_dict (v : json) : bool :=
  match v with JList _ | JDict _ => true | _ => false end.

(** The order of the sort on the keyed tokens. *)
Definition key_order (x y : sort_key * json) : Prop :=
  key_le (fst x) (fst y) = true.

(** Both times of the utterance are numbers. *)
Definition timed (u : utterance) : Prop :=
  start_time u <> None /\ end_time u <> None.

(** The number of utterances, the one in the buffer counted in. *)
Definition weight (s : seg_state) : nat :=
  (List.length (utterances s)
   + (if truthy (cur_speaker_label (cur s)) then 1 else 0))%nat.

(** The times of the utterances, and of a buffer that has a label, are
    numbers. *)
Definition timed_state (s : seg_state) : Prop :=
  Forall timed (utterances s)
  /\ (truthy (cur_speaker_label (cur s)) = true ->
      cur_start_time (cur s) <> None /\ cur_end_time (cur s) <> None).

(** No utterance has the label of the one before it. *)
Fixpoint speakers_alternate (us : list utterance) : Prop :=
  match us with
  | [] => True
  | a :: rest =>
      match rest with
      | [] => True
      | b :: _ => same_speaker b a = false
      end
      /\ speakers_alternate rest
  end.

(** What a pronunciation token puts between the last part and its own
    text. *)
Definition joiner (last_part : string) : string :=
  if ends_with_blank last_part then EmptyString else " ".

(** The lines of the readable transcript: [k] empty lines between two
    blocks. *)
Fixpoint spaced (k : nat) (blocks : list string) : list string :=
  match blocks with
  | [] => []
  | b :: rest =>
      match rest with
      | [] => [b]
      | _ :: _ => b :: repeat EmptyString k ++ spaced k rest
      end
  end.

(** A word with any values for its times and no label of its own. *)
Definition bare_word (st en : json) (c : string) : json :=
  JDict [("type", JStr "pronunciation");
         ("start_time", st); ("end_time", en);
         ("alternatives", JList [JDict [("content", JStr c)]])].

(** [c in s] *)
Fixpoint has_char (c : ascii) (s : string) : bool :=
  match s with
  | EmptyString => false
  | String a s' => Ascii.eqb a c || has_char c s'
  end.

(** The event of the examples: the bucket and the key sit in a body
    that is a JSON text, beside a key at the top level. *)
Definition body_event : pydict :=
  [("body", JStr "the body"); ("transcript_key", JStr "top.json")].

Definition body_loads (s : string) : option json :=
  if String.eqb s "the body"
  then Some (JDict [("s3_bucket", JStr "hearings");
                    ("transcript_key", JStr "raw/seg.json");
                    ("base_filename", JStr "SEG_2025-06-12")])
  else if String.eqb s "the transcript"
  then Some (unlabelled_word (JNum 0) (JNum 1) "hello")
  else None.

(** A reader whose body names a bucket and no key. *)
Definition bucket_only_loads (s : string) : option json :=
  if String.eqb s "the body"
  then Some (JDict [("s3_bucket", JStr "hearings")])
  else None.

(** A document whose one word has an integer beyond the binary64 range
    for its start time. *)
Definition overflow_start : json :=
  unlabelled_word (JNum (inject_Z (10 ^ 400))) (JNum 1) "hello".

(** A store that holds one transcript under every key and accepts
    every object, and an oracle that knows the chair. *)
Definition one_transcript (bucket key : json) : result string :=
  Ok "the transcript".

Definition accept (bucket : json) (key body : string) : result unit :=
  Ok tt.

Definition chair_oracle (raw : string) : speaker_map := chair_map.

(** An event with its inputs at the top level, and a reader that finds
    the pause example in the store. *)
Definition top_event : pydict :=
  [("transcript_bucket", JStr "hearings");
   ("transcript_key", JStr "raw/seg.json")].

Definition pause_loads (s : string) : option json :=
  if String.eqb s "the transcript" then Some (transcript pause_items)
  else None.

(** The times of the utterance are the start of a span and the end of a
    span of the list. *)
Definition from_spans (spans : list (Q * Q)) (start finish : option Q)
  : Prop :=
  exists st en,
    start = Some st /\ finish = Some en
    /\ In st (map fst spans) /\ In en (map snd spans).

Definition spans_state (spans : list (Q * Q)) (s : seg_state) : Prop :=
  Forall (fun u => from_spans spans (start_time u) (end_time u))
         (utterances s)
  /\ (truthy (cur_speaker_label (cur s)) = true ->
      from_spans spans (cur_start_time (cur s)) (cur_end_time (cur s))).

(** A property of the agent format: a dict with a name and a value. *)
Definition property (name : string) (value : json) : json :=
  JDict [("name", JStr name); ("value", value)].

(** The name of the property is not [name]. *)
Definition other_name (name : string) (p : json) : Prop :=
  exists d, p = JDict d
            /\ py_eq (dict_get d "name" JNull) (JStr name) = false.

(** * Properties *)

Lemma Qltb_lt (a b : Q) : Qltb a b = true <-> a < b.
Proof.
  unfold Qltb. rewrite negb_true_iff.
  split; intro H.
  - apply Qnot_le_lt. intro L. apply Qle_bool_iff in L. congruence.
  - destruct (Qle_bool b a) eqn:E; [|reflexivity].
    apply Qle_bool_iff in E. exfalso. apply (Qlt_not_le _ _ H E).
Qed.

Lemma bind_ok {A B : Type} (r : result A) (k : A -> result B) (b : B) :
  bind r k = Ok b -> exists a, r = Ok a /\ k a = Ok b.
Proof.
  destruct r as [a|e]; simpl; intro H; [eauto | discriminate].
Qed.

(** ** Binary64 *)

Lemma round64_compat (p q : Q) : p == q -> round64 p = round64 q.
Proof.
  intro H. unfold round64. rewrite (Qred_complete _ _ H). reflexivity.
Qed.

Lemma round64_zero (q : Q) : q == 0 -> round64 q = 0.
Proof. intro H. rewrite (round64_compat H). reflexivity. Qed.

Lemma Qopp_opp (q : Q) : - - q = q.
Proof.
  destruct q as [n d]. unfold Qopp. simpl.
  rewrite Z.opp_involutive. reflexivity.
Qed.

(** Rounding to nearest is symmetric about zero. *)
Lemma round64_opp (q : Q) : round64 (- q) = - round64 q.
Proof.
  unfold round64. rewrite Qred_opp.
  destruct (Qred q) as [[|n|n] d]; simpl Qnum; cbv iota beta.
  - reflexivity.
  - rewrite Qopp_opp. reflexivity.
  - rewrite Qopp_opp. reflexivity.
Qed.

Lemma fsub_swap (a b : Q) : fsub b a = - fsub a b.
Proof.
  unfold fsub. rewrite <- round64_opp. apply round64_compat. ring.
Qed.

(** The difference of two equal floats is zero. *)
Lemma fsub_same (a b : Q) : a == b -> fsub a b = 0.
Proof. intro H. apply round64_zero. rewrite H. ring. Qed.

Lemma fsub_abs_swap (a b : Q) : Qabs (fsub b a) == Qabs (fsub a b).
Proof. rewrite fsub_swap. apply Qabs_opp. Qed.

(** The rounding at work: the literals 0.3 and 0.301 are not binary64
    numbers, and 1.5 - 0.3 is the float 1.2 although the two floats are
    more than it apart; a number half way between two floats goes to
    the one whose last bit is zero, also among the subnormal numbers;
    floats are left as they are. *)
Lemma round64_examples :
  double (3 # 10) = 5404319552844595 # 18014398509481984
  /\ fsub (double (15 # 10)) (double (3 # 10)) = double (12 # 10)
  /\ double (12 # 10) < double (15 # 10) - double (3 # 10)
  /\ fsub 1 (- pow2 (-53)) = 1
  /\ fsub (1 + pow2 (-52)) (- pow2 (-53)) = Qred (1 + pow2 (-51))
  /\ round64 (3 * pow2 (-1075)) = pow2 (-1073)
  /\ round64 (5 * pow2 (-1075)) = pow2 (-1073)
  /\ round64 (double (3 # 10)) = double (3 # 10)
  /\ float_of_num (inject_Z (2 ^ 1024)) = Err OverflowError
  /\ float_of_num (inject_Z (2 ^ 1024 - 2 ^ 970 - 1))
     = Ok (inject_Z (2 ^ 1024 - 2 ^ 971)).
Proof. repeat split; vm_compute; reflexivity. Qed.

(** ** Deduplication *)

Section DedupFacts.

Variable float_of_str : string -> option Q.

Abbreviation token_view := (token_view float_of_str).
Abbreviation dedup_keep := (dedup_keep float_of_str).
Abbreviation dedup_loop := (dedup_loop float_of_str).
Abbreviation dedup := (dedup float_of_str).
Abbreviation dedup_spec := (dedup_spec float_of_str).
Abbreviation dedup_spec_from := (dedup_spec_from float_of_str).
Abbreviation well_formed := (well_formed float_of_str).

Lemma view_time (it : json) (t : Q) (c : string) :
  token_view it = Some (t, c) -> dedup_time float_of_str it = Ok t.
Proof.
  unfold token_view, dedup_time, py_get, dict_get.
  destruct it as [| | | |l|d]; try discriminate.
  destruct (lookup "start_time" d) as [v|]; [|discriminate].
  destruct (lookup "alternatives" d) as [[| | | |[|[| | | | |a] more]|]|];
    try discriminate.
  simpl. destruct (py_float float_of_str v) as [t'|]; [|discriminate].
  destruct (lookup "content" a) as [[| | |c'| |]|]; try discriminate.
  intro H. injection H as -> _. reflexivity.
Qed.

Lemma view_content (it : json) (t : Q) (c : string) :
  token_view it = Some (t, c) -> dedup_content it = Ok (JStr c).
Proof.
  unfold token_view, dedup_content, py_get, dict_get.
  destruct it as [| | | |l|d]; try discriminate.
  destruct (lookup "start_time" d) as [v|]; [|discriminate].
  destruct (lookup "alternatives" d) as [[| | | |[|[| | | | |a] more]|]|];
    try discriminate.
  simpl. destruct (py_float float_of_str v) as [t'|]; [|discriminate].
  unfold dict_get.
  destruct (lookup "content" a) as [[| | |c'| |]|]; try discriminate.
  intro H. injection H as _ ->. reflexivity.
Qed.

(** On two well-formed tokens the source keeps the current one exactly
    when the specification does not call it a duplicate. *)
Lemma keep_not_duplicate (prev curr : json) (a b : Q * string) :
  token_view prev = Some a -> token_view curr = Some b ->
  dedup_keep prev curr = negb (is_duplicate a b).
Proof.
  destruct a as [t1 c1], b as [t2 c2]. intros Hp Hc.
  unfold dedup_keep, distinct_enough.
  rewrite (view_time _ Hp), (view_time _ Hc),
    (view_content _ Hp), (view_content _ Hc).
  simpl. unfold is_duplicate, Qltb. simpl.
  rewrite negb_andb. reflexivity.
Qed.

Lemma dedup_loop_front (front : list json) (prev : json) (rest : list json) :
  dedup_loop front prev rest = front ++ dedup_loop [] prev rest.
Proof.
  revert front prev. induction rest as [|curr rest IH]; intros front prev.
  - reflexivity.
  - simpl. destruct (dedup_keep prev curr).
    + rewrite (IH (front ++ [prev])), (IH ([] ++ [prev])).
      rewrite <- app_assoc. reflexivity.
    + apply IH.
Qed.

Lemma dedup_loop_spec (prev : json) (rest : list json) :
  well_formed prev -> Forall well_formed rest ->
  dedup_loop [] prev rest = prev :: dedup_spec_from prev rest.
Proof.
  revert prev. induction rest as [|curr rest IH]; intros prev Hp Hr.
  - reflexivity.
  - inversion Hr as [|? ? Hc Hr']; subst.
    simpl. unfold well_formed in Hp, Hc.
    destruct (token_view prev) as [a|] eqn:Ea; [|congruence].
    destruct (token_view curr) as [b|] eqn:Eb; [|congruence].
    rewrite (keep_not_duplicate _ _ Ea Eb).
    destruct (is_duplicate a b); simpl.
    + apply IH; [unfold well_formed; congruence | assumption].
    + rewrite dedup_loop_front. simpl. f_equal.
      apply IH; [unfold well_formed; congruence | assumption].
Qed.

Lemma is_duplicate_iff (a b : Q * string) :
  is_duplicate a b = true <->
  Qabs (fsub (fst b) (fst a)) <= double (1 # 1000) /\ snd a = snd b.
Proof.
  unfold is_duplicate, dedup_eps.
  rewrite andb_true_iff, Qle_bool_iff, String.eqb_eq.
  reflexivity.
Qed.

(** C1.  Deduplication is a linear scan: the first token is retained
    whatever it is; a later token with a well-formed start time and text
    is compared with the last retained token, also well formed, and is
    removed exactly when the difference of the two start times, as the
    float subtraction gives it, is at most the float 0.001 in absolute
    value and the two texts are equal, the retained token staying the
    point of comparison; on a sequence of well-formed tokens the result
    is the filter of the specification.  So two tokens at one time with
    different texts are both retained, and so are two identical tokens
    around a distinct one. *)
Theorem dedup_linear_scan :
  (forall first rest, exists tail,
      dedup (first :: rest) = first :: tail
      /\ dedup_loop [] first rest = first :: tail)
  /\ (forall front prev curr rest a b,
        token_view prev = Some a -> token_view curr = Some b ->
        ((Qabs (fsub (fst b) (fst a)) <= double (1 # 1000)
          /\ snd a = snd b) ->
         dedup_loop front prev (curr :: rest) = dedup_loop front prev rest)
        /\ (~ (Qabs (fsub (fst b) (fst a)) <= double (1 # 1000)
               /\ snd a = snd b) ->
            dedup_loop front prev (curr :: rest)
            = dedup_loop (front ++ [prev]) curr rest))
  /\ (forall items, Forall well_formed items ->
        dedup items = dedup_spec items)
  /\ (forall x y t c1 c2,
        token_view x = Some (t, c1) -> token_view y = Some (t, c2) ->
        c1 <> c2 -> dedup [x; y] = [x; y])
  /\ (forall x y a b,
        token_view x = Some a -> token_view y = Some b ->
        ~ (Qabs (fsub (fst b) (fst a)) <= double (1 # 1000)
           /\ snd a = snd b) ->
        dedup [x; y; x] = [x; y; x]).
Proof.
  split; [|split; [|split; [|split]]].
  - intros first rest. revert first.
    induction rest as [|curr rest IH]; intro first.
    + exists []. split; reflexivity.
    + simpl. destruct (dedup_keep first curr).
      * destruct (IH curr) as [tail [_ Ht]].
        exists (curr :: tail). rewrite dedup_loop_front, Ht.
        split; reflexivity.
      * destruct (IH first) as [tail [_ Ht]].
        exists tail. rewrite Ht. split; reflexivity.
  - intros front prev curr rest a b Ea Eb. simpl.
    rewrite (keep_not_duplicate _ _ Ea Eb).
    split; intro H.
    + apply is_duplicate_iff in H. rewrite H. reflexivity.
    + destruct (is_duplicate a b) eqn:E; [|reflexivity].
      apply is_duplicate_iff in E. contradiction.
  - intros [|first rest] H; [reflexivity|].
    inversion H; subst. simpl. apply dedup_loop_spec; assumption.
  - intros x y t c1 c2 Ex Ey Hc. simpl.
    rewrite (keep_not_duplicate _ _ Ex Ey).
    destruct (is_duplicate (t, c1) (t, c2)) eqn:E; [|reflexivity].
    apply is_duplicate_iff in E. simpl in E. destruct E; contradiction.
  - intros x y a b Ex Ey Hn. simpl.
    rewrite (keep_not_duplicate _ _ Ex Ey).
    destruct (is_duplicate a b) eqn:E.
    { apply is_duplicate_iff in E. contradiction. }
    simpl. rewrite (keep_not_duplicate _ _ Ey Ex).
    destruct (is_duplicate b a) eqn:E'; [|reflexivity].
    apply is_duplicate_iff in E'. exfalso. apply Hn.
    destruct E' as [Ht Hc]. split; [|congruence].
    rewrite fsub_abs_swap. exact Ht.
Qed.

End DedupFacts.

(** C1, at a word that a second channel repeats half a millisecond
    later, which is removed; at the literals 0.3 and 0.301, whose floats
    differ by more than the float 0.001, so that both tokens are
    retained; at two tokens of one start time and different texts; and
    at a repeated word around another one. *)
Lemma dedup_linear_scan_witness :
  let x := word "1.000" "1.400" spk_0 "Well" in
  let x' := word "1.0005" "1.400" spk_1 "Well" in
  let y := word "1.000" "1.400" spk_1 "well" in
  let p := word "0.3" "0.5" spk_0 "Well" in
  let q := word "0.301" "0.5" spk_1 "Well" in
  (Qabs (fsub (double (10005 # 10000)) 1) <= double (1 # 1000)
   /\ dedup decimal [x; x'] = [x])
  /\ (~ Qabs (fsub (double (301 # 1000)) (double (3 # 10)))
         <= double (1 # 1000)
      /\ dedup decimal [p; q] = [p; q])
  /\ ("Well" <> "well" /\ dedup decimal [x; y] = [x; y])
  /\ (Forall (well_formed decimal) [x; x; y; x]
      /\ dedup decimal [x; x; y; x] = dedup_spec decimal [x; x; y; x]).
Proof.
  intros x x' y p q.
  assert (Near : Qabs (fsub (double (10005 # 10000)) 1)
                 <= double (1 # 1000)).
  { apply Qle_bool_iff. vm_compute. reflexivity. }
  assert (Far : ~ Qabs (fsub (double (301 # 1000)) (double (3 # 10)))
                  <= double (1 # 1000)).
  { intro H. apply Qle_bool_iff in H. vm_compute in H. discriminate. }
  split; [|split; [|split]].
  - split; [exact Near|].
    apply (proj1 (proj1 (proj2 (dedup_linear_scan decimal))
                    [] x x' [] (1, "Well")
                    (double (10005 # 10000), "Well") eq_refl eq_refl)).
    split; [exact Near | reflexivity].
  - split; [exact Far|].
    apply (proj2 (proj1 (proj2 (dedup_linear_scan decimal))
                    [] p q [] (double (3 # 10), "Well")
                    (double (301 # 1000), "Well") eq_refl eq_refl)).
    intros [H _]. exact (Far H).
  - split; [discriminate|].
    apply (proj1 (proj2 (proj2 (proj2 (dedup_linear_scan decimal))))
             x y 1 "Well" "well");
      [reflexivity | reflexivity | discriminate].
  - assert (H : Forall (well_formed decimal) [x; x; y; x]).
    { repeat constructor; discriminate. }
    split; [exact H|].
    exact (proj1 (proj2 (proj2 (dedup_linear_scan decimal))) _ H).
Defined.

(** C8.  Two adjacent tokens without a start time and with the same text:
    both times default to -1.0, no exception is raised, and the second
    token is dropped, whatever [float] does on strings.  The same
    happens to two tokens of one start time without alternatives, whose
    texts both default to the empty string.  In a transcript the second
    of two full stops is lost. *)
Theorem dedup_drops_token_with_missing_field :
  (forall float_of_str c,
      dedup float_of_str [punct c; punct c] = [punct c])
  /\ (forall float_of_str v t,
        py_float float_of_str v = Ok t ->
        let bare := JDict [("start_time", v)] in
        dedup float_of_str [bare; bare] = [bare])
  /\ reconstruct_utterances_with_timestamps decimal
       (transcript ellipsis_items) default_gap
     = Ok [Utterance spk_0 (Some 0) (Some (1 # 2)) "Wait."].
Proof.
  assert (Z0 : forall t, Qltb (double (1 # 1000)) (Qabs (fsub t t)) = false).
  { intro t. rewrite (@fsub_same t t (Qeq_refl t)). reflexivity. }
  split; [|split].
  - intros f c.
    assert (T : dedup_time f (punct c) = Ok (-1)) by reflexivity.
    assert (C : dedup_content (punct c) = Ok (JStr c)) by reflexivity.
    assert (K : dedup_keep f (punct c) (punct c) = false).
    { unfold dedup_keep, distinct_enough. rewrite T, C.
      cbn [bind]. rewrite Z0. cbn [py_eq]. rewrite String.eqb_refl.
      reflexivity. }
    cbn [dedup dedup_loop]. rewrite K. reflexivity.
  - intros f v t Hv bare.
    assert (T : dedup_time f bare = Ok t).
    { unfold dedup_time, bare. cbn [py_get dict_get lookup String.eqb].
      cbn. exact Hv. }
    assert (C : dedup_content bare = Ok (JStr "")) by reflexivity.
    assert (K : dedup_keep f bare bare = false).
    { unfold dedup_keep, distinct_enough. rewrite T, C.
      cbn [bind]. rewrite Z0. reflexivity. }
    cbn [dedup dedup_loop]. rewrite K. reflexivity.
  - vm_compute. reflexivity.
Qed.

(** C8, at two tokens that have a start time and nothing else. *)
Lemma dedup_drops_token_with_missing_field_witness :
  py_float decimal (JStr "1.5") = Ok (3 # 2)
  /\ dedup decimal [JDict [("start_time", JStr "1.5")];
                    JDict [("start_time", JStr "1.5")]]
     = [JDict [("start_time", JStr "1.5")]].
Proof.
  split; [reflexivity|].
  apply (proj1 (proj2 dedup_drops_token_with_missing_field)
           decimal (JStr "1.5") (3 # 2)).
  reflexivity.
Defined.

(** ** Speaker lookup *)

Lemma in_range_test (st en : Q) (lab : json) (t : Q) :
  Qle_bool st t && Qltb t en = true <-> in_range (st, en, lab) t.
Proof.
  unfold in_range. simpl.
  rewrite andb_true_iff, Qle_bool_iff, Qltb_lt. reflexivity.
Qed.

Lemma speaker_for_time_miss (ranges : list range) (t : Q) (fallback : json) :
  (forall r, In r ranges -> ~ in_range r t) ->
  _speaker_for_time ranges t fallback = fallback.
Proof.
  induction ranges as [|[[st en] lab] rest IH]; intro H; simpl.
  - reflexivity.
  - destruct (Qle_bool st t && Qltb t en) eqn:E.
    + apply in_range_test with (lab := lab) in E.
      exfalso. apply (H (st, en, lab)); [left; reflexivity | exact E].
    + apply IH. intros r Hr. apply H. right. exact Hr.
Qed.

(** C7.  The lookup scans the ranges in the order of the list, which it
    does not sort: the label of the first range with start <= t < end is
    returned, whatever ranges follow it; the interval is half open, so a
    time equal to the end of a range does not match it; without a match
    the fallback label is returned.  The segmentation passes the label
    of its buffer as the fallback, which is None before any label is
    established. *)
Theorem speaker_lookup_first_match :
  (forall before st en lab after t fallback,
      (forall r, In r before -> ~ in_range r t) ->
      st <= t -> t < en ->
      _speaker_for_time (before ++ (st, en, lab) :: after) t fallback = lab)
  /\ (forall ranges t fallback,
        (forall r, In r ranges -> ~ in_range r t) ->
        _speaker_for_time ranges t fallback = fallback)
  /\ (forall st en lab rest t fallback,
        t == en ->
        _speaker_for_time ((st, en, lab) :: rest) t fallback
        = _speaker_for_time rest t fallback)
  /\ (forall ranges d st b,
        truthy (dict_get d "speaker_label" JNull) = false ->
        resolve_label ranges d st b
        = _speaker_for_time ranges st (cur_speaker_label b))
  /\ cur_speaker_label (cur init_state) = JNull.
Proof.
  split; [|split; [|split; [|split]]].
  - intros before st en lab after t fallback Hb Hs He.
    induction before as [|[[st' en'] lab'] before IH]; simpl.
    + assert (E : Qle_bool st t && Qltb t en = true).
      { apply (in_range_test st en lab). split; assumption. }
      rewrite E. reflexivity.
    + destruct (Qle_bool st' t && Qltb t en') eqn:E.
      * apply in_range_test with (lab := lab') in E.
        exfalso. apply (Hb (st', en', lab')); [left; reflexivity | exact E].
      * apply IH. intros r Hr. apply Hb. right. exact Hr.
  - exact speaker_for_time_miss.
  - intros st en lab rest t fallback Ht. simpl.
    assert (E : Qltb t en = false).
    { unfold Qltb. apply negb_false_iff. apply Qle_bool_iff.
      rewrite Ht. apply Qle_refl. }
    rewrite E, andb_false_r. reflexivity.
  - intros ranges d st b H. unfold resolve_label. rewrite H. reflexivity.
  - reflexivity.
Qed.

(** C7, at two overlapping ranges listed out of order: the first one in
    the list wins at 3, and 5, the end of both, falls to the fallback. *)
Lemma speaker_lookup_first_match_witness :
  _speaker_for_time [(2, 5, spk_1); (0, 5, spk_0)] 3 JNull = spk_1
  /\ _speaker_for_time [(2, 5, spk_1); (0, 5, spk_0)] 5 spk_0 = spk_0.
Proof.
  split.
  - apply (proj1 speaker_lookup_first_match [] 2 5 spk_1 [(0, 5, spk_0)]
             3 JNull).
    + intros r [].
    + discriminate.
    + reflexivity.
  - apply (proj1 (proj2 speaker_lookup_first_match)).
    intros r [<-|[<-|[]]] [_ H]; simpl in H; discriminate.
Defined.

(** ** Silence gaps *)

Lemma append_empty (s : string) : (s ++ "")%string = s.
Proof.
  induction s as [|c s IH]; simpl; [reflexivity | rewrite IH; reflexivity].
Qed.

(** C3.  A pronunciation token whose start time, less the end time of
    the last pronunciation token, is more than [gap_seconds], the
    difference being the one the float subtraction gives, flushes the
    buffer and opens a new one at its own start time, holding its text
    alone, whatever the label it resolves to and whatever the label of
    the buffer.  Two words of one speaker that are more than the gap
    apart are segmented into two utterances; so one speaker who stops
    at 10.0 and resumes at 12.0 gives two utterances under the default
    gap of 1.2. *)
Theorem silence_gap_boundary :
  (forall float_of_str ranges gap_seconds d content s st en e,
      py_float float_of_str (dict_get d "start_time" (JNum 0)) = Ok st ->
      py_float float_of_str (dict_get d "end_time" (JNum 0)) = Ok en ->
      last_word_end s = Some e ->
      gap_seconds < fsub st e ->
      pronunciation float_of_str ranges gap_seconds d content s
      = (us <- _flush (cur s) (utterances s) ;;
         Ok (SegState us
               (Buffer (resolve_label ranges d st (cur s))
                       (Some st) (Some en) [content])
               (Some en))))
  /\ (forall float_of_str ranges gap_seconds l c1 c2 v1 w1 v2 w2 s1 e1 s2 e2,
        l <> "" ->
        py_float float_of_str v1 = Ok s1 ->
        py_float float_of_str w1 = Ok e1 ->
        py_float float_of_str v2 = Ok s2 ->
        py_float float_of_str w2 = Ok e2 ->
        gap_seconds < fsub s2 e1 ->
        segment float_of_str ranges gap_seconds
          [spoken l v1 w1 c1; spoken l v2 w2 c2]
        = Ok [Utterance (JStr l) (Some s1) (Some e1) (strip c1);
              Utterance (JStr l) (Some s2) (Some e2) (strip c2)])
  /\ default_gap < fsub 12 10
  /\ reconstruct_utterances_with_timestamps decimal
       (transcript pause_items) default_gap
     = Ok [Utterance spk_0 (Some (19 # 2)) (Some 10) "hello";
           Utterance spk_0 (Some 12) (Some (25 # 2)) "again"].
Proof.
  split; [|split; [|split]].
  - intros f ranges gap d content s st en e Hst Hen He Hgap.
    unfold pronunciation. rewrite Hst, Hen. simpl.
    assert (T : flush_trigger gap s (resolve_label ranges d st (cur s)) st
                = true).
    { unfold flush_trigger, gap_exceeded. rewrite He.
      apply orb_true_iff. right. apply Qltb_lt. exact Hgap. }
    rewrite T.
    destruct (_flush (cur s) (utterances s)) as [us|x]; reflexivity.
  - intros f ranges gap l c1 c2 v1 w1 v2 w2 s1 e1 s2 e2 Hl H1 H2 H3 H4 Hgap.
    assert (G : Qltb gap (fsub s2 e1) = true) by (apply Qltb_lt; exact Hgap).
    unfold segment, spoken. cbn -[Qltb strip fsub py_float].
    unfold pronunciation at 1. cbn -[Qltb strip fsub py_float pronunciation].
    rewrite H1, H2. cbn -[Qltb strip fsub py_float pronunciation].
    unfold resolve_label, flush_trigger.
    cbn -[Qltb strip fsub py_float pronunciation].
    destruct (String.eqb l "") eqn:E;
      [apply String.eqb_eq in E; contradiction|].
    cbn -[Qltb strip fsub py_float pronunciation].
    unfold pronunciation. cbn -[Qltb strip fsub py_float].
    rewrite H3, H4. cbn -[Qltb strip fsub py_float].
    unfold resolve_label, flush_trigger. cbn -[Qltb strip fsub py_float].
    rewrite E. cbn -[Qltb strip fsub py_float].
    rewrite G, orb_true_r. cbn -[Qltb strip fsub py_float].
    unfold _flush, emits. cbn -[Qltb strip fsub py_float]. rewrite E.
    cbn -[Qltb strip fsub py_float]. rewrite E, !append_empty. reflexivity.
  - vm_compute. reflexivity.
  - vm_compute. reflexivity.
Qed.

(** C3, at the second token of the pause example, met in the state the
    first token leaves. *)
Lemma silence_gap_boundary_witness :
  let d := [("type", JStr "pronunciation");
            ("start_time", JStr "12.0"); ("end_time", JStr "12.5");
            ("speaker_label", spk_0);
            ("alternatives", JList [JDict [("content", JStr "again")]])] in
  let s := SegState []
             (Buffer spk_0 (Some (19 # 2)) (Some 10) [JStr "hello"])
             (Some 10) in
  default_gap < fsub 12 10
  /\ pronunciation decimal [] default_gap d (JStr "again") s
     = Ok (SegState [Utterance spk_0 (Some (19 # 2)) (Some 10) "hello"]
             (Buffer spk_0 (Some 12) (Some (25 # 2)) [JStr "again"])
             (Some (25 # 2))).
Proof.
  intros d s.
  assert (G : default_gap < fsub 12 10) by (vm_compute; reflexivity).
  split; [exact G|].
  apply (proj1 silence_gap_boundary decimal [] default_gap d (JStr "again")
           s 12 (25 # 2) 10);
    [reflexivity | reflexivity | reflexivity | exact G].
Defined.

(** ** What the flush emits *)

Ltac bind_inv H :=
  let a := fresh "a" in
  let E := fresh "E" in
  apply bind_ok in H; destruct H as [a [E H]].

Lemma flush_discards (b : buffer) (us : list utterance) :
  emits b = false -> _flush b us = Ok us.
Proof. unfold _flush. intros ->. reflexivity. Qed.

Lemma flush_emits (b : buffer) (us : list utterance) (t : string) :
  truthy (cur_speaker_label b) = true ->
  text_parts b <> [] ->
  join_parts (text_parts b) = Ok t ->
  _flush b us = Ok (us ++ [utterance_of b t]).
Proof.
  intros Hl Hp Ht. unfold _flush, emits. rewrite Hl, Ht.
  destruct (text_parts b); [contradiction | reflexivity].
Qed.

Lemma flush_labelled (b : buffer) (us us' : list utterance) :
  Forall labelled us -> _flush b us = Ok us' -> Forall labelled us'.
Proof.
  unfold _flush. destruct (emits b) eqn:E.
  - intros Hus H. bind_inv H. injection H as <-.
    apply Forall_app. split; [assumption|].
    constructor; [|constructor].
    unfold emits in E. apply andb_true_iff in E. exact (proj1 E).
  - intros Hus H. injection H as <-. assumption.
Qed.

Section SegmentationFacts.

Variable float_of_str : string -> option Q.

Abbreviation pronunciation := (pronunciation float_of_str).
Abbreviation seg_step := (seg_step float_of_str).
Abbreviation seg_loop := (seg_loop float_of_str).
Abbreviation segment := (segment float_of_str).
Abbreviation reconstruct :=
  (reconstruct_utterances_with_timestamps float_of_str).

Lemma pronunciation_labelled ranges gap d content (s s' : seg_state) :
  Forall labelled (utterances s) ->
  pronunciation ranges gap d content s = Ok s' ->
  Forall labelled (utterances s').
Proof.
  intros Hs H. unfold pronunciation in H.
  bind_inv H. bind_inv H. bind_inv H. bind_inv H.
  injection H as <-. simpl.
  destruct (flush_trigger _ _ _ _).
  - bind_inv E1. injection E1 as <-. simpl.
    eapply flush_labelled; eassumption.
  - injection E1 as <-. assumption.
Qed.

Lemma seg_step_labelled ranges gap (s s' : seg_state) (it : json) :
  Forall labelled (utterances s) ->
  seg_step ranges gap s it = Ok s' ->
  Forall labelled (utterances s').
Proof.
  intros Hs H. unfold seg_step in H.
  destruct it as [| | | | |d]; try (injection H as <-; assumption).
  destruct (dict_get d "alternatives" (JList [])) as [| | | |[|a0 more]|];
    try (injection H as <-; assumption).
  destruct (py_eq _ _).
  - eapply pronunciation_labelled; eassumption.
  - injection H as <-. assumption.
Qed.

Lemma seg_loop_labelled ranges gap (items : list json) (s s' : seg_state) :
  Forall labelled (utterances s) ->
  seg_loop ranges gap items s = Ok s' ->
  Forall labelled (utterances s').
Proof.
  revert s. induction items as [|it rest IH]; intros s Hs H; simpl in H.
  - injection H as <-. assumption.
  - bind_inv H. eapply IH; [|eassumption].
    eapply seg_step_labelled; eassumption.
Qed.

Lemma truthy_not_null (v : json) : truthy v = true -> v <> JNull.
Proof. intros H ->. discriminate. Qed.

(** C5.  The half of the claim that the code keeps: every utterance of
    the reconstruction has a truthy label, so one that is neither null
    nor empty, and a buffer whose label is not truthy or that holds no
    part is discarded by the flush.  The other half it misses: the
    flush tests the list of parts, not the text they make, so a buffer
    with a label and at least one part is emitted with the stripped
    concatenation of its parts whatever that is, the empty string
    included; a word whose text is empty gives an utterance whose text
    is empty. *)
Theorem emitted_utterances_are_labelled :
  (forall transcribe gap_seconds us,
      reconstruct transcribe gap_seconds = Ok us ->
      Forall (fun u => labelled u /\ speaker_label u <> JNull) us)
  /\ (forall b us,
        truthy (cur_speaker_label b) = false \/ text_parts b = [] ->
        _flush b us = Ok us)
  /\ (forall b us t,
        truthy (cur_speaker_label b) = true ->
        text_parts b <> [] ->
        join_parts (text_parts b) = Ok t ->
        _flush b us
        = Ok (us ++ [Utterance (cur_speaker_label b) (cur_start_time b)
                               (cur_end_time b) (strip t)]))
  /\ (forall l st en us,
        truthy l = true ->
        _flush (Buffer l st en [JStr ""]) us
        = Ok (us ++ [Utterance l st en ""]))
  /\ reconstruct_utterances_with_timestamps decimal
       (transcript silent_items) default_gap
     = Ok [Utterance spk_0 (Some 0) (Some 1) ""].
Proof.
  split; [|split; [|split; [|split]]].
  - intros doc gap us H.
    assert (F : Forall labelled us).
    { unfold reconstruct, reconstruct_utterances_with_timestamps in H.
      bind_inv H. destruct a as [| | | | |r]; try discriminate.
      bind_inv H. bind_inv H. unfold segment in H.
      bind_inv H.
      eapply flush_labelled; [|eassumption].
      eapply seg_loop_labelled; [|eassumption].
      constructor. }
    eapply Forall_impl; [|exact F].
    intros u Hu. split; [exact Hu|].
    apply truthy_not_null. exact Hu.
  - intros b us [H|H]; apply flush_discards; unfold emits; rewrite H.
    + reflexivity.
    + apply andb_false_r.
  - intros b us t Hl Hp Ht. apply (flush_emits b us Hl Hp Ht).
  - intros l st en us Hl.
    apply (@flush_emits (Buffer l st en [JStr ""]) us "" Hl);
      [discriminate | reflexivity].
  - vm_compute. reflexivity.
Qed.

End SegmentationFacts.

(** C5, at the pause example, whose two utterances have a label, and at
    the buffer that holds the one word of the silent example. *)
Lemma emitted_utterances_are_labelled_witness :
  (reconstruct_utterances_with_timestamps decimal (transcript pause_items)
     default_gap
   = Ok [Utterance spk_0 (Some (19 # 2)) (Some 10) "hello";
         Utterance spk_0 (Some 12) (Some (25 # 2)) "again"]
   /\ Forall (fun u => labelled u /\ speaker_label u <> JNull)
        [Utterance spk_0 (Some (19 # 2)) (Some 10) "hello";
         Utterance spk_0 (Some 12) (Some (25 # 2)) "again"])
  /\ (truthy spk_0 = true
      /\ _flush (Buffer spk_0 (Some 0) (Some 1) [JStr ""]) []
         = Ok [Utterance spk_0 (Some 0) (Some 1) ""]).
Proof.
  assert (E : reconstruct_utterances_with_timestamps decimal
                (transcript pause_items) default_gap
              = Ok [Utterance spk_0 (Some (19 # 2)) (Some 10) "hello";
                    Utterance spk_0 (Some 12) (Some (25 # 2)) "again"]).
  { vm_compute. reflexivity. }
  split.
  - split; [exact E|].
    exact (proj1 (emitted_utterances_are_labelled decimal) _ _ _ E).
  - split; [reflexivity|].
    exact (proj1 (proj2 (proj2 (proj2
             (emitted_utterances_are_labelled decimal))))
             spk_0 (Some 0) (Some 1) [] eq_refl).
Defined.

(** ** Text held under no label *)

Lemma add_space_nil : add_space [] = Ok [].
Proof. reflexivity. Qed.

Lemma add_space_last (l : list json) (x : json) :
  add_space (l ++ [x])
  = match x with
    | JStr p =>
        Ok (if ends_with_blank p then l ++ [x] else (l ++ [x]) ++ [JStr " "])
    | _ => Err AttributeError
    end.
Proof.
  unfold add_space. rewrite rev_app_distr. simpl.
  destruct x; reflexivity.
Qed.

Lemma last_cases {A : Type} (l : list A) :
  l = [] \/ exists l' x, l = l' ++ [x].
Proof.
  induction l as [|x l' _] using rev_ind; [left | right]; eauto.
Qed.

Lemma add_space_extra (extra parts : list json) :
  forallb is_str extra = true ->
  result_rel
    (fun a b => exists extra',
         a = extra' ++ b /\ forallb is_str extra' = true)
    (add_space (extra ++ parts)) (add_space parts).
Proof.
  intro Hx.
  destruct (last_cases parts) as [-> | [p' [y ->]]].
  - rewrite app_nil_r, add_space_nil.
    destruct (last_cases extra) as [-> | [e' [y ->]]].
    + simpl. exists []. split; reflexivity.
    + rewrite add_space_last.
      rewrite forallb_app in Hx. apply andb_true_iff in Hx.
      destruct Hx as [He Hy]. simpl in Hy.
      destruct y as [| | |p| |]; try discriminate. simpl.
      destruct (ends_with_blank p).
      * exists (e' ++ [JStr p]). rewrite app_nil_r. split; [reflexivity|].
        rewrite forallb_app, He. reflexivity.
      * exists ((e' ++ [JStr p]) ++ [JStr " "]). rewrite app_nil_r.
        split; [reflexivity|].
        rewrite !forallb_app, He. reflexivity.
  - rewrite app_assoc, !add_space_last.
    destruct y as [| | |p| |]; simpl; try reflexivity.
    exists extra. split; [|exact Hx].
    destruct (ends_with_blank p); rewrite <- ?app_assoc; reflexivity.
Qed.

Ltac differ_same :=
  repeat (split; [reflexivity|]);
  exists []; split; [reflexivity | left; reflexivity].

Lemma differ_refl (s : seg_state) : differ_in_unlabelled_text s s.
Proof. differ_same. Qed.

Lemma flush_differ (s1 s2 : seg_state) :
  differ_in_unlabelled_text s1 s2 ->
  _flush (cur s1) (utterances s1) = _flush (cur s2) (utterances s2).
Proof.
  destruct s1 as [us1 [l1 a1 b1 p1] w1], s2 as [us2 [l2 a2 b2 p2] w2].
  unfold differ_in_unlabelled_text. simpl.
  intros (-> & -> & -> & -> & -> & extra & -> & [-> | [Hf Hs]]).
  - reflexivity.
  - unfold _flush, emits. simpl. rewrite Hf. reflexivity.
Qed.

Section UnlabelledText.

Variable float_of_str : string -> option Q.

Abbreviation pronunciation := (pronunciation float_of_str).
Abbreviation seg_step := (seg_step float_of_str).
Abbreviation seg_loop := (seg_loop float_of_str).
Abbreviation segment := (segment float_of_str).

Lemma pronunciation_differ ranges gap d content (s1 s2 : seg_state) :
  differ_in_unlabelled_text s1 s2 ->
  result_rel differ_in_unlabelled_text
    (pronunciation ranges gap d content s1)
    (pronunciation ranges gap d content s2).
Proof.
  intro R. pose proof (flush_differ R) as HF. revert R HF.
  destruct s1 as [us1 [l1 a1 b1 p1] w1], s2 as [us2 [l2 a2 b2 p2] w2].
  unfold differ_in_unlabelled_text. simpl.
  intros (-> & -> & -> & -> & -> & extra & -> & Hx) HF.
  unfold pronunciation.
  destruct (py_float float_of_str (dict_get d "start_time" (JNum 0)))
    as [st|e]; [|reflexivity].
  destruct (py_float float_of_str (dict_get d "end_time" (JNum 0)))
    as [en|e]; [|reflexivity].
  unfold bind at 1 2 5 6. unfold flush_trigger, resolve_label. simpl.
  destruct (negb _ || gap_exceeded gap w2 st).
  - rewrite HF.
    destruct (_flush (Buffer l2 a2 b2 p2) us2) as [us|e]; [|reflexivity].
    simpl. differ_same.
  - simpl. destruct Hx as [-> | [Hf Hs]].
    + simpl. destruct (add_space p2) as [q|e]; [|reflexivity].
      simpl. differ_same.
    + pose proof (add_space_extra extra p2 Hs) as HA.
      destruct (add_space (extra ++ p2)) as [q1|e1],
               (add_space p2) as [q2|e2]; simpl in HA; try contradiction.
      * destruct HA as [extra' [-> Hs']]. simpl.
        repeat (split; [reflexivity|]).
        exists extra'. split; [symmetry; apply app_assoc|].
        right. split; assumption.
      * simpl. exact HA.
Qed.

Lemma seg_step_differ ranges gap (it : json) (s1 s2 : seg_state) :
  differ_in_unlabelled_text s1 s2 ->
  result_rel differ_in_unlabelled_text
    (seg_step ranges gap s1 it) (seg_step ranges gap s2 it).
Proof.
  intro R. unfold seg_step.
  destruct it as [| | | | |d]; try exact R.
  destruct (dict_get d "alternatives" (JList [])) as [| | | |[|a0 more]|];
    try exact R.
  destruct (py_eq _ _).
  - apply pronunciation_differ. exact R.
  - simpl. revert R.
    destruct s1 as [us1 [l1 a1 b1 p1] w1], s2 as [us2 [l2 a2 b2 p2] w2].
    unfold differ_in_unlabelled_text, punctuation. simpl.
    intros (-> & -> & -> & -> & -> & extra & -> & Hx).
    repeat (split; [reflexivity|]).
    exists extra. split; [symmetry; apply app_assoc | exact Hx].
Qed.

Lemma seg_loop_differ ranges gap (items : list json) (s1 s2 : seg_state) :
  differ_in_unlabelled_text s1 s2 ->
  result_rel differ_in_unlabelled_text
    (seg_loop ranges gap items s1) (seg_loop ranges gap items s2).
Proof.
  revert s1 s2. induction items as [|it rest IH]; intros s1 s2 R; simpl.
  - exact R.
  - pose proof (seg_step_differ ranges gap it R) as H.
    destruct (seg_step ranges gap s1 it) as [r1|e1],
             (seg_step ranges gap s2 it) as [r2|e2];
      simpl in H; try contradiction; simpl.
    + apply IH. exact H.
    + exact H.
Qed.

Lemma seg_loop_app ranges gap (xs ys : list json) (s : seg_state) :
  seg_loop ranges gap (xs ++ ys) s
  = (s' <- seg_loop ranges gap xs s ;; seg_loop ranges gap ys s').
Proof.
  revert s. induction xs as [|x xs IH]; intro s; simpl.
  - reflexivity.
  - destruct (seg_step ranges gap s x) as [s'|e]; simpl; [apply IH | reflexivity].
Qed.

(** Punctuation only appends strings to the buffer. *)
Lemma seg_loop_punctuation ranges gap (leading : list json) (s : seg_state) :
  forallb plain_punctuation leading = true ->
  exists extra,
    forallb is_str extra = true
    /\ seg_loop ranges gap leading s
       = Ok (SegState (utterances s)
               (Buffer (cur_speaker_label (cur s)) (cur_start_time (cur s))
                       (cur_end_time (cur s)) (text_parts (cur s) ++ extra))
               (last_word_end s)).
Proof.
  revert s. induction leading as [|it rest IH]; intros s H.
  - exists []. split; [reflexivity|]. simpl. rewrite app_nil_r.
    destruct s as [us [l a b p] w]. reflexivity.
  - simpl in H. apply andb_true_iff in H. destruct H as [Hit Hrest].
    unfold plain_punctuation in Hit.
    destruct it as [| | | | |d]; try discriminate.
    apply andb_true_iff in Hit. destruct Hit as [Hty Hc].
    apply negb_true_iff in Hty.
    simpl. rewrite Hty.
    destruct (dict_get d "alternatives" (JList [])) as [| | | |[|a0 more]|];
      simpl; try (apply IH; exact Hrest).
    destruct (IH (punctuation (content_of a0) s) Hrest) as [extra [Hx E]].
    exists (content_of a0 :: extra). split.
    + simpl. rewrite Hc, Hx. reflexivity.
    + rewrite E. simpl. rewrite <- app_assoc. reflexivity.
Qed.

(** C10.  A flush met while the label of the buffer is null leaves the
    utterances as they are.  Text that lies in the buffer under a label
    that is not truthy has no effect on what the segmentation returns:
    two runs from states that differ in such text only end with the same
    utterances or the same exception.  So punctuation tokens that come
    before the first pronunciation token leave no trace in the output. *)
Theorem unlabelled_text_is_never_emitted :
  (forall b us, cur_speaker_label b = JNull -> _flush b us = Ok us)
  /\ (forall ranges gap_seconds items s1 s2,
        differ_in_unlabelled_text s1 s2 ->
        (s <- seg_loop ranges gap_seconds items s1 ;;
         _flush (cur s) (utterances s))
        = (s <- seg_loop ranges gap_seconds items s2 ;;
           _flush (cur s) (utterances s)))
  /\ (forall ranges gap_seconds leading rest,
        forallb plain_punctuation leading = true ->
        segment ranges gap_seconds (leading ++ rest)
        = segment ranges gap_seconds rest).
Proof.
  assert (Main : forall ranges gap items s1 s2,
             differ_in_unlabelled_text s1 s2 ->
             (s <- seg_loop ranges gap items s1 ;;
              _flush (cur s) (utterances s))
             = (s <- seg_loop ranges gap items s2 ;;
                _flush (cur s) (utterances s))).
  { intros ranges gap items s1 s2 R.
    pose proof (seg_loop_differ ranges gap items R) as H.
    destruct (seg_loop ranges gap items s1) as [r1|e1],
             (seg_loop ranges gap items s2) as [r2|e2];
      simpl in H; try contradiction; simpl.
    - apply flush_differ. exact H.
    - rewrite H. reflexivity. }
  split; [|split].
  - intros b us H. apply flush_discards. unfold emits. rewrite H. reflexivity.
  - exact Main.
  - intros ranges gap leading rest H.
    unfold segment. rewrite seg_loop_app.
    destruct (@seg_loop_punctuation ranges gap leading init_state H)
      as [extra [Hx E]].
    rewrite E. simpl bind at 2.
    apply Main.
    repeat (split; [reflexivity|]).
    exists extra. simpl. split; [symmetry; apply app_nil_r|].
    right. split; [reflexivity | exact Hx].
Qed.

End UnlabelledText.

(** C10, at a comma and a dash met before the first word. *)
Lemma unlabelled_text_is_never_emitted_witness :
  forallb plain_punctuation [punct ","; punct "-"] = true
  /\ segment decimal [] default_gap ([punct ","; punct "-"] ++ pause_items)
     = segment decimal [] default_gap pause_items.
Proof.
  split; [reflexivity|].
  apply (proj2 (proj2 (unlabelled_text_is_never_emitted decimal))).
  reflexivity.
Defined.

(** ** Coalescing *)

Lemma coalesce_settled (gap : option Q) (rest : list utterance) :
  forall front last,
    settled_from gap last rest ->
    coalesce_loop gap front last rest = Ok (front ++ last :: rest).
Proof.
  induction rest as [|u rest IH]; intros front last H; simpl.
  - reflexivity.
  - destruct H as [[ok [Hg Hm]] Hrest].
    rewrite Hg. simpl. rewrite Hm.
    rewrite (IH (front ++ [last]) u Hrest), <- app_assoc. reflexivity.
Qed.

Lemma gap_ok_same_start (gap : option Q) (u u' last : utterance) :
  start_time u' = start_time u ->
  gap_ok gap u' last = gap_ok gap u last.
Proof. unfold gap_ok. intros ->. reflexivity. Qed.

(** The loop returns [front], then the last utterance grown by what it
    absorbed, then a list with nothing left to merge. *)
Lemma coalesce_loop_settles (gap : option Q) (rest : list utterance) :
  forall front last out,
    coalesce_loop gap front last rest = Ok out ->
    exists last' tail,
      out = front ++ last' :: tail
      /\ speaker_label last' = speaker_label last
      /\ start_time last' = start_time last
      /\ settled_from gap last' tail.
Proof.
  induction rest as [|u rest IH]; intros front last out H; simpl in H.
  - injection H as <-. exists last, []. repeat split; reflexivity.
  - apply bind_ok in H. destruct H as [ok [Hg H]].
    destruct (same_speaker u last && ok) eqn:Hm.
    + destruct (IH _ _ _ H) as [last' [tail [-> [Hl [Hs Ht]]]]].
      exists last', tail. repeat split; assumption.
    + destruct (IH _ _ _ H) as [u' [tail [-> [Hl [Hs Ht]]]]].
      exists last, (u' :: tail). rewrite <- app_assoc.
      repeat split; try reflexivity; [|exact Ht].
      exists ok. rewrite (@gap_ok_same_start gap u u' last Hs).
      split; [exact Hg|].
      unfold same_speaker in *. rewrite Hl. exact Hm.
Qed.

(** C4.  Coalescing twice under one gap policy is coalescing once, also
    when it raises.  The loop merges the next utterance into the last
    accumulated one exactly when the labels are equal and the gap test
    passes; the test is passed when no gap is set, and else when the
    start of the next utterance less the end of the last one, as the
    float subtraction gives it, is at most the gap. *)
Theorem coalesce_idempotent :
  (forall us gap_seconds,
      (v <- coalesce_utterances us gap_seconds ;;
       coalesce_utterances v gap_seconds)
      = coalesce_utterances us gap_seconds)
  /\ (forall u last, gap_ok None u last = Ok true)
  /\ (forall g u last s e,
        start_time u = Some s -> end_time last = Some e ->
        exists ok, gap_ok (Some g) u last = Ok ok
                   /\ (ok = true <-> fsub s e <= g))
  /\ (forall gap_seconds front last u rest ok,
        gap_ok gap_seconds u last = Ok ok ->
        coalesce_loop gap_seconds front last (u :: rest)
        = if py_eq (speaker_label u) (speaker_label last) && ok
          then coalesce_loop gap_seconds front (merge last u) rest
          else coalesce_loop gap_seconds (front ++ [last]) u rest).
Proof.
  split; [|split; [|split]].
  - intros us gap.
    destruct (coalesce_utterances us gap) as [out|e] eqn:E; [|reflexivity].
    simpl. destruct us as [|first rest].
    + injection E as <-. reflexivity.
    + simpl in E.
      destruct (@coalesce_loop_settles gap rest [] first out E)
        as [last' [tail [-> [_ [_ Ht]]]]].
      simpl. apply (@coalesce_settled gap tail [] last' Ht).
  - reflexivity.
  - intros g u last s e Hs He. unfold gap_ok. rewrite Hs, He.
    exists (Qle_bool (fsub s e) g). split; [reflexivity|].
    apply Qle_bool_iff.
  - intros gap front last u rest ok Hg. simpl. rewrite Hg. reflexivity.
Qed.

(** C4, at the two utterances of the pause example, which a gap of 2
    merges and a gap of 1 keeps apart, and at two utterances that end
    at 1.0 and start at 2.2, whose float difference is more than the
    float 1.2, so that a gap of 1.2 keeps them apart. *)
Lemma coalesce_idempotent_witness :
  let a := Utterance spk_0 (Some (19 # 2)) (Some 10) "hello" in
  let b := Utterance spk_0 (Some 12) (Some (25 # 2)) "again" in
  let c := Utterance spk_0 (Some 0) (Some 1) "hello" in
  let d := Utterance spk_0 (Some (double (22 # 10))) (Some 3) "again" in
  (exists ok, gap_ok (Some 2) b a = Ok ok
              /\ (ok = true <-> fsub 12 10 <= 2))
  /\ coalesce_utterances [a; b] (Some 2)
     = Ok [Utterance spk_0 (Some (19 # 2)) (Some (25 # 2)) "hello again"]
  /\ coalesce_utterances [a; b] (Some 1) = Ok [a; b]
  /\ (v <- coalesce_utterances [a; b] (Some 2) ;;
      coalesce_utterances v (Some 2))
     = coalesce_utterances [a; b] (Some 2)
  /\ (exists ok, gap_ok (Some (double (12 # 10))) d c = Ok ok
                 /\ (ok = true
                     <-> fsub (double (22 # 10)) 1 <= double (12 # 10)))
  /\ ~ fsub (double (22 # 10)) 1 <= double (12 # 10)
  /\ coalesce_utterances [c; d] (Some (double (12 # 10))) = Ok [c; d].
Proof.
  intros a b c d. split; [|split; [|split; [|split; [|split; [|split]]]]].
  - apply (proj1 (proj2 (proj2 coalesce_idempotent)) 2 b a 12 10);
      reflexivity.
  - reflexivity.
  - reflexivity.
  - apply (proj1 coalesce_idempotent).
  - apply (proj1 (proj2 (proj2 coalesce_idempotent)) (double (12 # 10))
             d c (double (22 # 10)) 1);
      reflexivity.
  - intro H. apply Qle_bool_iff in H. vm_compute in H. discriminate.
  - vm_compute. reflexivity.
Defined.

(** ** The record stream *)

Lemma lines_row (r s : string) :
  has_newline r = false -> lines (r ++ String newline s) = r :: lines s.
Proof.
  induction r as [|c r IH]; simpl; intro H.
  - reflexivity.
  - apply orb_false_iff in H. destruct H as [Hc Hr].
    rewrite Hc, (IH Hr). reflexivity.
Qed.

Lemma lines_single (r : string) :
  has_newline r = false -> r <> EmptyString -> lines r = [r].
Proof.
  induction r as [|c r IH]; simpl; intros H Hne.
  - contradiction.
  - apply orb_false_iff in H. destruct H as [Hc Hr]. rewrite Hc.
    destruct r as [|c' r'].
    + reflexivity.
    + rewrite (IH Hr); [reflexivity | discriminate].
Qed.

Lemma lines_concat (rows : list string) :
  Forall (fun r => r <> EmptyString /\ has_newline r = false) rows ->
  lines (String.concat nl rows) = rows.
Proof.
  induction rows as [|r rows IH]; intro H.
  - reflexivity.
  - inversion H as [|? ? [Hne Hnl] Hrest]; subst.
    destruct rows as [|r' rows'].
    + simpl. apply lines_single; assumption.
    + change (String.concat nl (r :: r' :: rows'))
        with (r ++ String newline (String.concat nl (r' :: rows')))%string.
      rewrite (lines_row r _ Hnl), (IH Hrest). reflexivity.
Qed.

Lemma name_of_ok (m : speaker_map) (u : utterance) (n : json) :
  name_of m (speaker_label u) = Ok n -> n = name_json m u.
Proof.
  unfold name_of, map_get, name_json, mapped, dict_get.
  destruct (speaker_label u); intro H; try discriminate;
    injection H as <-; reflexivity.
Qed.

Lemma jsonl_rows_fields (m : speaker_map) (us : list utterance) :
  forall rows,
    jsonl_rows us m = Ok rows ->
    map record_tuple rows = map (fun u => Some (utterance_tuple u)) us
    /\ map (field "speaker_name") rows
       = map (fun u => Some (name_json m u)) us.
Proof.
  induction us as [|u us IH]; intros rows H; simpl in H.
  - injection H as <-. split; reflexivity.
  - apply bind_ok in H. destruct H as [n [Hn H]].
    apply bind_ok in H. destruct H as [rs [Hrs H]].
    injection H as <-. destruct (IH _ Hrs) as [IH1 IH2].
    apply name_of_ok in Hn. subst n.
    simpl. rewrite IH1, IH2. split; reflexivity.
Qed.

Lemma jsonl_rows_total (m : speaker_map) (us : list utterance) :
  Forall (fun u => hashable (speaker_label u) = true) us ->
  exists rows, jsonl_rows us m = Ok rows.
Proof.
  induction us as [|u us IH]; intro H.
  - exists []. reflexivity.
  - inversion H as [|? ? Hu Hus]; subst.
    destruct (IH Hus) as [rs Hrs]. simpl. rewrite Hrs.
    unfold name_of, map_get.
    destruct (speaker_label u); try discriminate; simpl; eauto.
Qed.

Lemma lookup_In {V : Type} (k : string) (d : list (string * V)) (v : V) :
  lookup k d = Some v -> In (k, v) d.
Proof.
  induction d as [|[k' v'] d IH]; simpl; [discriminate|].
  destruct (String.eqb k k') eqn:E.
  - intro H. injection H as ->. apply String.eqb_eq in E. subst k'.
    left. reflexivity.
  - intro H. right. apply IH. exact H.
Qed.

(** C6, as the code has it.  The record stream is written for every
    list of utterances whose labels can be looked up in the name map:
    it is the rows joined by line feeds.  When the JSON library is
    faithful on the rows, parsing each line of the stream gives back,
    in order, the tuple (speaker_label, start_time, end_time, text) of
    each utterance, and as speaker_name the value that the name map
    gives the label, null without one: a speaker_name that is null when
    the label is not a key of the name map, and also when the map gives
    the label null, so exactly when the label is not a key for a map
    that gives no label null. *)
Theorem jsonl_round_trip (dumps : json -> string)
  (loads : string -> option json) (us : list utterance) (m : speaker_map) :
  (Forall (fun u => hashable (speaker_label u) = true) us ->
   exists rows, jsonl_rows us m = Ok rows)
  /\ (forall rows,
        jsonl_rows us m = Ok rows ->
        Forall (faithful dumps loads) rows ->
        exists out,
          utterances_to_jsonl dumps us m = Ok out
          /\ out = String.concat line_feed (map dumps rows)
          /\ map (fun l => and_then (loads l) record_tuple) (lines out)
             = map (fun u =>
                      Some (speaker_label u,
                            match start_time u with
                            | Some q => JNum q
                            | None => JNull
                            end,
                            match end_time u with
                            | Some q => JNum q
                            | None => JNull
                            end,
                            JStr (text u))) us
          /\ map (fun l => and_then (loads l) (field "speaker_name"))
                 (lines out)
             = map (fun u =>
                      Some (match mapped m (speaker_label u) with
                            | Some n => n
                            | None => JNull
                            end)) us)
  /\ (forall u,
        name_json m u = JNull
        <-> mapped m (speaker_label u) = None
            \/ mapped m (speaker_label u) = Some JNull)
  /\ (no_null_name m ->
      forall u, name_json m u = JNull <-> mapped m (speaker_label u) = None).
Proof.
  assert (N : forall u,
             name_json m u = JNull
             <-> mapped m (speaker_label u) = None
                 \/ mapped m (speaker_label u) = Some JNull).
  { intro u. unfold name_json.
    destruct (mapped m (speaker_label u)) as [n|]; split.
    - intros ->. right. reflexivity.
    - intros [H|H]; [discriminate | injection H as ->; reflexivity].
    - intros _. left. reflexivity.
    - intros _. reflexivity. }
  split; [|split; [|split]].
  - apply jsonl_rows_total.
  - intros rows Hrows Hf.
    exists (String.concat nl (map dumps rows)).
    unfold utterances_to_jsonl. rewrite Hrows. simpl.
    split; [reflexivity|]. split; [reflexivity|].
    assert (L : lines (String.concat nl (map dumps rows)) = map dumps rows).
    { apply lines_concat. apply Forall_map.
      eapply Forall_impl; [|exact Hf].
      intros r [_ [Hne Hnl]]. split; assumption. }
    rewrite L, !map_map.
    destruct (jsonl_rows_fields m us Hrows) as [H1 H2].
    split.
    + transitivity (map record_tuple rows).
      * apply map_ext_Forall. eapply Forall_impl; [|exact Hf].
        intros r [Hr _]. rewrite Hr. reflexivity.
      * rewrite H1. reflexivity.
    + transitivity (map (field "speaker_name") rows).
      * apply map_ext_Forall. eapply Forall_impl; [|exact Hf].
        intros r [Hr _]. rewrite Hr. reflexivity.
      * rewrite H2. reflexivity.
  - exact N.
  - intros Hm u. rewrite N. split; [|intro H; left; exact H].
    intros [H|H]; [exact H | exfalso].
    unfold mapped in H. destruct (speaker_label u); try discriminate.
    apply lookup_In in H. unfold no_null_name in Hm.
    rewrite Forall_forall in Hm. apply (Hm _ H). reflexivity.
Qed.

(** C6, at two utterances of which the name map knows the first
    speaker only. *)
Lemma jsonl_round_trip_witness :
  jsonl_rows hearing chair_map = Ok hearing_rows
  /\ Forall (faithful show (read_among hearing_rows)) hearing_rows
  /\ no_null_name chair_map
  /\ (exists out,
        utterances_to_jsonl show hearing chair_map = Ok out
        /\ map (fun l => and_then (read_among hearing_rows l) record_tuple)
               (lines out)
           = [Some (spk_0, JNum (19 # 2), JNum 10, JStr "hello");
              Some (spk_1, JNum 12, JNum (25 # 2), JStr "again")]
        /\ map (fun l => and_then (read_among hearing_rows l)
                           (field "speaker_name")) (lines out)
           = [Some (JStr "Chair Cruz"); Some JNull])
  /\ (name_json chair_map (Utterance spk_1 (Some 12) (Some (25 # 2)) "again")
      = JNull
      <-> mapped chair_map spk_1 = None).
Proof.
  assert (R : jsonl_rows hearing chair_map = Ok hearing_rows).
  { reflexivity. }
  assert (F : Forall (faithful show (read_among hearing_rows)) hearing_rows).
  { repeat constructor; discriminate. }
  assert (M : no_null_name chair_map).
  { repeat constructor. discriminate. }
  split; [exact R|]. split; [exact F|]. split; [exact M|]. split.
  - destruct (proj1 (proj2 (jsonl_round_trip show (read_among hearing_rows)
                              hearing chair_map)) hearing_rows R F)
      as (out & Hout & _ & Ht & Hn).
    exists out. split; [exact Hout|]. split; [exact Ht | exact Hn].
  - exact (proj2 (proj2 (proj2 (jsonl_round_trip show
                                  (read_among hearing_rows) hearing
                                  chair_map))) M
             (Utterance spk_1 (Some 12) (Some (25 # 2)) "again")).
Defined.

(** C6 as stated fails in one direction: the name map is what the
    naming model replied, and a label that it maps to null is a key of
    the map and has the speaker_name null all the same. *)
Lemma mapped_label_can_have_null_name :
  let u := Utterance spk_0 (Some 0) (Some 1) "hello" in
  jsonl_rows [u] null_map = Ok [row u JNull]
  /\ field "speaker_name" (row u JNull) = Some JNull
  /\ lookup "spk_0" null_map <> None
  /\ ~ (field "speaker_name" (row u JNull) = Some JNull
        <-> mapped null_map (speaker_label u) = None).
Proof.
  intro u. split; [reflexivity|]. split; [reflexivity|].
  split; [discriminate|].
  intros [H _]. specialize (H eq_refl). discriminate.
Qed.

(** ** Order of the utterances *)




Lemma span_of_step (f : string -> option Q) (it : json) (st en : Q) :
  span_of f it = Some (st, en) ->
  exists d a0 more,
    it = JDict d
    /\ dict_get d "alternatives" (JList []) = JList (a0 :: more)
    /\ py_eq (dict_get d "type" JNull) (JStr "pronunciation") = true
    /\ py_float f (dict_get d "start_time" (JNum 0)) = Ok st
    /\ py_float f (dict_get d "end_time" (JNum 0)) = Ok en.
Proof.
  unfold span_of. destruct it as [| | | | |d]; try discriminate.
  destruct (dict_get d "alternatives" (JList [])) as [| | | |[|a0 more]|]
    eqn:Ea; try discriminate.
  destruct (py_eq _ _) eqn:Et; [|discriminate].
  destruct (py_float f (dict_get d "start_time" (JNum 0))) as [st'|] eqn:Es;
    [|discriminate].
  destruct (py_float f (dict_get d "end_time" (JNum 0))) as [en'|] eqn:Ee;
    [|discriminate].
  intro H. injection H as <- <-. exists d, a0, more. auto.
Qed.

Section OrderFacts.

Variable float_of_str : string -> option Q.

(** The order between the end of a token and the start of the next one:
    [<=] or [<]. *)
Variable R : Q -> Q -> Prop.
Hypothesis R_le : forall x y, R x y -> x <= y.
Hypothesis R_le_trans : forall x y z, x <= y -> R y z -> R x z.




(** A token that is not in the timeline is skipped or appended as
    punctuation, if the step returns at all. *)
Lemma seg_step_no_span ranges gap (it : json) (s s' : seg_state) :
  span_of float_of_str it = None ->
  seg_step float_of_str ranges gap s it = Ok s' ->
  s' = s \/ exists c, s' = punctuation c s.
Proof.
  unfold span_of, seg_step.
  destruct it as [| | | | |d];
    try (intros _ H; injection H as <-; left; reflexivity).
  destruct (dict_get d "alternatives" (JList [])) as [| | | |[|a0 more]|];
    try (intros _ H; injection H as <-; left; reflexivity).
  destruct (py_eq _ _).
  - unfold pronunciation.
    destruct (py_float float_of_str (dict_get d "start_time" (JNum 0)))
      as [st|x]; [|intros _ H; discriminate].
    destruct (py_float float_of_str (dict_get d "end_time" (JNum 0)))
      as [en|x]; [discriminate | intros _ H; discriminate].
  - intros _ H. injection H as <-. right. eexists. reflexivity.
Qed.





End OrderFacts.

(** *** Utterances of one speaker under a gap that is not negative *)



Section SeparationFacts.

Variable float_of_str : string -> option Q.
Variable gap : Q.
Hypothesis gap_not_negative : 0 <= gap.






End SeparationFacts.

Lemma reconstruct_read_tokens (f : string -> option Q) (doc : json) (gap : Q) :
  reconstruct_utterances_with_timestamps f doc gap
  = (items <- read_tokens f doc ;;
     ranges <- _build_ranges f doc ;;
     segment f ranges gap items).
Proof.
  unfold reconstruct_utterances_with_timestamps, read_tokens.
  destruct (py_get doc "results" (JDict [])) as [[| | | | |r]|e];
    try reflexivity.
  simpl. destruct (harvest f r); reflexivity.
Qed.



(** ** Fatal errors *)

(** C9 as stated fails in one direction: the document has a list of
    items under a [results] object, and the conversion of a null start
    time raises all the same; so does the conversion of an integer
    beyond the binary64 range, and such a document is not tidy. *)
Lemma null_start_time_raises :
  (reconstruct_utterances_with_timestamps decimal null_start default_gap
   = Err TypeError
   /\ structural_error null_start = false)
  /\ (reconstruct_utterances_with_timestamps decimal overflow_start
        default_gap
      = Err OverflowError
      /\ structural_error overflow_start = false
      /\ tidy decimal overflow_start = false).
Proof.
  split.
  - split; reflexivity.
  - split; [vm_compute; reflexivity|].
    split; [reflexivity | vm_compute; reflexivity].
Qed.

Section NoError.

Variable float_of_str : string -> option Q.

Abbreviation py_float := (py_float float_of_str).
Abbreviation tidy_token := (tidy_token float_of_str).
Abbreviation tidy_segment := (tidy_segment float_of_str).

Lemma time_ok_float (d : pydict) (k : string) :
  time_ok float_of_str d k = true ->
  exists q, py_float (dict_get d k (JNum 0)) = Ok q.
Proof.
  unfold time_ok, dict_get. destruct (lookup k d) as [v|].
  - destruct (py_float v) as [q|e]; [eauto | discriminate].
  - intros _. exists 0. reflexivity.
Qed.

(** *** The harvest *)

Lemma keyed_ok (items : list json) :
  (forall it, In it items -> tidy_token it = true) ->
  exists ks, keyed float_of_str (filter is_dict items) = Ok ks
             /\ map snd ks = filter is_dict items.
Proof.
  induction items as [|it items IH]; intro H.
  - exists []. split; reflexivity.
  - destruct IH as [ks [Hks Hsnd]].
    { intros x Hx. apply H. right. exact Hx. }
    assert (Hit := H it (or_introl eq_refl)).
    destruct it as [| | | | |d]; simpl; eauto.
    rewrite Hks. unfold tidy_token in Hit.
    apply andb_true_iff in Hit. destruct Hit as [Hit _].
    apply andb_true_iff in Hit. destruct Hit as [Hst _].
    unfold time_ok in Hst.
    destruct (lookup "start_time" d) as [v|].
    + destruct (py_float v) as [q|e]; [|discriminate]. simpl.
      eexists. split; [reflexivity|]. simpl. rewrite Hsnd. reflexivity.
    + simpl. eexists. split; [reflexivity|]. simpl. rewrite Hsnd. reflexivity.
Qed.

Lemma insert_key_In (x y : sort_key * json) (l : list (sort_key * json)) :
  In y (insert_key x l) -> y = x \/ In y l.
Proof.
  induction l as [|z l IH]; simpl.
  - intros [<-|[]]. left. reflexivity.
  - destruct (key_le (fst x) (fst z)); simpl.
    + intros [<-|H]; [left; reflexivity | right; exact H].
    + intros [<-|H]; [right; left; reflexivity|].
      destruct (IH H) as [->|Hl]; [left; reflexivity | right; right; exact Hl].
Qed.

Lemma sort_In (y : sort_key * json) (ks : list (sort_key * json)) :
  In y (fold_right insert_key [] ks) -> In y ks.
Proof.
  induction ks as [|k ks IH]; simpl; [intros []|].
  intro H. apply insert_key_In in H.
  destruct H as [->|H]; [left; reflexivity | right; apply IH; exact H].
Qed.

Lemma sorted_by_start_ok (items : list json) :
  (forall it, In it items -> tidy_token it = true) ->
  exists sorted,
    sorted_by_start float_of_str (filter is_dict items) = Ok sorted
    /\ (forall it, In it sorted -> tidy_token it = true).
Proof.
  intro H. destruct (keyed_ok items H) as [ks [Hks Hsnd]].
  unfold sorted_by_start. rewrite Hks. simpl.
  eexists. split; [reflexivity|].
  intros it Hit. apply in_map_iff in Hit. destruct Hit as [y [<- Hy]].
  apply sort_In in Hy. apply H.
  assert (Hin : In (snd y) (filter is_dict items)).
  { rewrite <- Hsnd. apply in_map. exact Hy. }
  apply filter_In in Hin. exact (proj1 Hin).
Qed.

Lemma harvest_ok (r : pydict) :
  tidy_results float_of_str r = true ->
  no_token_source (JDict [("results", JDict r)]) = false ->
  exists items,
    harvest float_of_str r = Ok items
    /\ (forall it, In it items -> tidy_token it = true).
Proof.
  unfold tidy_results, raw_tokens, harvest, elements. simpl.
  intros H Hsrc.
  apply andb_true_iff in H. destruct H as [H _].
  apply andb_true_iff in H. destruct H as [Hch Htok].
  rewrite forallb_forall in Htok.
  destruct (lookup "channel_labels" r) as [c_labels|].
  - fold (channels_of c_labels).
    destruct (py_iter (channels_of c_labels)) as [chs|e]; [|discriminate].
    simpl. apply sorted_by_start_ok. exact Htok.
  - destruct (lookup "items" r) as [raw|]; [|discriminate].
    destruct raw as [| | | |raw|];
      try (exists []; split; [reflexivity | intros it []]).
    eexists. split; [reflexivity|].
    intros it Hit. apply filter_In in Hit. apply Htok. exact (proj1 Hit).
Qed.

(** *** The duplicate filter keeps tokens of the input only *)

Lemma dedup_loop_In (x : json) (rest front : list json) (prev : json) :
  In x (dedup_loop float_of_str front prev rest) ->
  In x front \/ x = prev \/ In x rest.
Proof.
  revert front prev. induction rest as [|curr rest IH]; intros front prev H;
    simpl in H.
  - apply in_app_or in H. destruct H as [H|[<-|[]]]; auto.
  - destruct (dedup_keep float_of_str prev curr).
    + destruct (IH _ _ H) as [Hf|[->|Hr]].
      * apply in_app_or in Hf. destruct Hf as [Hf|[<-|[]]]; auto.
      * right. right. left. reflexivity.
      * right. right. right. exact Hr.
    + destruct (IH _ _ H) as [Hf|[->|Hr]]; auto.
      right. right. right. exact Hr.
Qed.

Lemma dedup_In (x : json) (items : list json) :
  In x (dedup float_of_str items) -> In x items.
Proof.
  destruct items as [|first rest]; simpl; [intros []|].
  intro H. apply dedup_loop_In in H.
  destruct H as [[]|[->|H]]; [left; reflexivity | right; exact H].
Qed.

(** *** The ranges *)

Lemma ranges_of_segments_ok (segs : list json) :
  forallb tidy_segment segs = true ->
  exists ranges, ranges_of_segments float_of_str segs = Ok ranges.
Proof.
  induction segs as [|sg segs IH]; intro H; simpl in *.
  - eauto.
  - apply andb_true_iff in H. destruct H as [Hsg Hsegs].
    destruct (IH Hsegs) as [rs Hrs].
    destruct sg as [| | | | |d]; eauto.
    unfold tidy_segment in Hsg.
    apply andb_true_iff in Hsg. destruct Hsg as [Hst Hen].
    destruct (time_ok_float _ _ Hst) as [st ->].
    destruct (time_ok_float _ _ Hen) as [en ->].
    rewrite Hrs. simpl. eauto.
Qed.

Lemma build_ranges_ok (top r : pydict) :
  dict_get top "results" (JDict []) = JDict r ->
  tidy_results float_of_str r = true ->
  exists ranges, _build_ranges float_of_str (JDict top) = Ok ranges.
Proof.
  intros Hr H. unfold _build_ranges. simpl. rewrite Hr.
  unfold tidy_results in H. apply andb_true_iff in H. destruct H as [_ H].
  destruct (lookup "speaker_labels" r) as [labels|]; [|eauto].
  fold (segments_of labels). unfold elements in H.
  apply andb_true_iff in H. destruct H as [Hit Hsegs].
  destruct (py_iter (segments_of labels)) as [segs|e]; [|discriminate].
  simpl. apply ranges_of_segments_ok. exact Hsegs.
Qed.

(** *** The loop: the parts of the buffer stay strings *)

Lemma join_parts_ok (parts : list json) :
  forallb is_str parts = true -> exists t, join_parts parts = Ok t.
Proof.
  induction parts as [|p parts IH]; simpl; intro H; [eauto|].
  apply andb_true_iff in H. destruct H as [Hp Hparts].
  destruct p; try discriminate.
  destruct (IH Hparts) as [t ->]. simpl. eauto.
Qed.

Lemma flush_ok (b : buffer) (us : list utterance) :
  forallb is_str (text_parts b) = true -> exists us', _flush b us = Ok us'.
Proof.
  intro H. unfold _flush. destruct (emits b); [|eauto].
  destruct (join_parts_ok _ H) as [t ->]. simpl. eauto.
Qed.

Lemma add_space_ok (parts : list json) :
  forallb is_str parts = true ->
  exists parts', add_space parts = Ok parts'
                 /\ forallb is_str parts' = true.
Proof.
  intro H. destruct (last_cases parts) as [-> | [l [x ->]]].
  - exists []. split; reflexivity.
  - rewrite add_space_last.
    pose proof H as H'. rewrite forallb_app in H'.
    apply andb_true_iff in H'. destruct H' as [_ Hx]. simpl in Hx.
    destruct x as [| | |p| |]; try discriminate.
    eexists. split; [reflexivity|].
    destruct (ends_with_blank p); [exact H|].
    rewrite forallb_app, H. reflexivity.
Qed.

Lemma seg_step_ok ranges gap (s : seg_state) (it : json) :
  tidy_token it = true ->
  forallb is_str (text_parts (cur s)) = true ->
  exists s', seg_step float_of_str ranges gap s it = Ok s'
             /\ forallb is_str (text_parts (cur s')) = true.
Proof.
  intros Hit Hs. unfold seg_step.
  destruct it as [| | | | |d]; eauto.
  unfold tidy_token in Hit.
  apply andb_true_iff in Hit. destruct Hit as [Hit Hc].
  apply andb_true_iff in Hit. destruct Hit as [Hst Hen].
  destruct (dict_get d "alternatives" (JList [])) as [| | | |[|a0 more]|];
    eauto.
  destruct (py_eq _ _).
  - unfold pronunciation.
    destruct (time_ok_float _ _ Hst) as [st ->].
    destruct (time_ok_float _ _ Hen) as [en ->]. simpl.
    destruct (flush_trigger gap s _ st).
    + destruct (flush_ok (cur s) (utterances s) Hs) as [us ->]. simpl.
      eexists. split; [reflexivity|]. simpl. rewrite Hc. reflexivity.
    + simpl. destruct (add_space_ok _ Hs) as [parts [-> Hparts]]. simpl.
      eexists. split; [reflexivity|]. simpl.
      rewrite forallb_app, Hparts. simpl. rewrite Hc. reflexivity.
  - eexists. split; [reflexivity|]. simpl.
    rewrite forallb_app, Hs. simpl. rewrite Hc. reflexivity.
Qed.

Lemma seg_loop_ok ranges gap (items : list json) :
  forall s,
    (forall it, In it items -> tidy_token it = true) ->
    forallb is_str (text_parts (cur s)) = true ->
    exists s', seg_loop float_of_str ranges gap items s = Ok s'
               /\ forallb is_str (text_parts (cur s')) = true.
Proof.
  induction items as [|it rest IH]; intros s H Hs; simpl.
  - eauto.
  - destruct (seg_step_ok ranges gap s it (H it (or_introl eq_refl)) Hs)
      as [s1 [-> Hs1]].
    simpl. apply IH; [|exact Hs1].
    intros x Hx. apply H. right. exact Hx.
Qed.

Lemma segment_ok ranges gap (items : list json) :
  (forall it, In it items -> tidy_token it = true) ->
  exists us, segment float_of_str ranges gap items = Ok us.
Proof.
  intro H. unfold segment.
  destruct (seg_loop_ok ranges gap items init_state H eq_refl)
    as [s [-> Hs]].
  simpl. apply flush_ok. exact Hs.
Qed.

(** A tidy document with a token source is reconstructed. *)
Lemma reconstruct_ok (transcribe : json) (gap : Q) :
  tidy float_of_str transcribe = true ->
  structural_error transcribe = false ->
  exists us,
    reconstruct_utterances_with_timestamps float_of_str transcribe gap
    = Ok us.
Proof.
  intros Ht Hs. destruct transcribe as [| | | | |top]; try discriminate.
  unfold structural_error in Hs. apply orb_false_iff in Hs.
  destruct Hs as [Hobj Hsrc].
  unfold tidy in Ht. unfold results_not_object in Hobj.
  unfold no_token_source in Hsrc.
  unfold reconstruct_utterances_with_timestamps. simpl.
  destruct (dict_get top "results" (JDict [])) as [| | | | |r] eqn:Er;
    try discriminate.
  destruct (harvest_ok r Ht) as [items [-> Hitems]].
  { simpl. exact Hsrc. }
  simpl. destruct (build_ranges_ok top Er Ht) as [ranges ->]. simpl.
  apply segment_ok. intros it Hit. apply Hitems.
  apply dedup_In. exact Hit.
Qed.

End NoError.

(** C9, as the code has it.  The reconstruction raises when [results] is
    not an object (a type error) and when [results] has neither [items]
    nor [channel_labels] (a value error).  On a tidy document, one whose
    channels and segments can be iterated, whose time fields are numbers
    or numeric strings that [float] converts and whose token texts are
    strings, these are the only cases in which it raises.  A document
    without speaker labels whose one pronunciation token carries no
    label and has times that [float] converts gives no utterance and no
    error.  Nothing is said of documents that are not tidy. *)
Theorem fatal_errors_are_structural :
  (forall float_of_str transcribe gap_seconds,
      results_not_object transcribe = true ->
      reconstruct_utterances_with_timestamps float_of_str transcribe
        gap_seconds = Err TypeError)
  /\ (forall float_of_str transcribe gap_seconds,
        no_token_source transcribe = true ->
        reconstruct_utterances_with_timestamps float_of_str transcribe
          gap_seconds = Err ValueError)
  /\ (forall float_of_str transcribe gap_seconds,
        tidy float_of_str transcribe = true ->
        (is_ok (reconstruct_utterances_with_timestamps float_of_str
                  transcribe gap_seconds) = false
         <-> structural_error transcribe = true))
  /\ (forall float_of_str st en c gap_seconds,
        is_ok (py_float float_of_str st) = true ->
        is_ok (py_float float_of_str en) = true ->
        reconstruct_utterances_with_timestamps float_of_str
          (unlabelled_word st en c) gap_seconds = Ok []).
Proof.
  assert (A : forall f doc gap,
             results_not_object doc = true ->
             reconstruct_utterances_with_timestamps f doc gap
             = Err TypeError).
  { intros f doc gap H. destruct doc as [| | | | |top]; try discriminate.
    unfold results_not_object in H.
    unfold reconstruct_utterances_with_timestamps. simpl.
    destruct (dict_get top "results" (JDict [])); try reflexivity.
    discriminate. }
  assert (B : forall f doc gap,
             no_token_source doc = true ->
             reconstruct_utterances_with_timestamps f doc gap
             = Err ValueError).
  { intros f doc gap H. destruct doc as [| | | | |top]; try discriminate.
    unfold no_token_source in H.
    unfold reconstruct_utterances_with_timestamps. simpl.
    destruct (dict_get top "results" (JDict [])) as [| | | | |r];
      try discriminate.
    unfold harvest.
    destruct (lookup "channel_labels" r); [discriminate|].
    destruct (lookup "items" r); [discriminate|]. reflexivity. }
  split; [exact A|]. split; [exact B|]. split.
  - intros f doc gap Ht. split.
    + intro H. destruct (structural_error doc) eqn:E; [reflexivity|].
      destruct (reconstruct_ok f doc gap Ht E) as [us Hus].
      rewrite Hus in H. discriminate.
    + intro H. unfold structural_error in H. apply orb_true_iff in H.
      destruct H as [H|H]; [rewrite (A f doc gap H) | rewrite (B f doc gap H)];
        reflexivity.
  - intros f st en c gap Hst Hen.
    destruct (py_float f st) as [s|x] eqn:Es; [|discriminate].
    destruct (py_float f en) as [e|x] eqn:Ee; [|discriminate].
    unfold reconstruct_utterances_with_timestamps, unlabelled_word,
      transcript.
    cbn -[py_float]. unfold segment. cbn -[py_float].
    unfold pronunciation. cbn -[py_float]. rewrite Es, Ee. reflexivity.
Qed.

(** C9, at a tidy document with a token source, at a document whose
    [results] is a list, and at one without a token source. *)
Lemma fatal_errors_are_structural_witness :
  (tidy decimal (transcript pause_items) = true
   /\ structural_error (transcript pause_items) = false
   /\ is_ok (reconstruct_utterances_with_timestamps decimal
               (transcript pause_items) default_gap) = true)
  /\ (results_not_object (JDict [("results", JList [])]) = true
      /\ reconstruct_utterances_with_timestamps decimal
           (JDict [("results", JList [])]) default_gap = Err TypeError)
  /\ (no_token_source (JDict [("results", JDict [])]) = true
      /\ reconstruct_utterances_with_timestamps decimal
           (JDict [("results", JDict [])]) default_gap = Err ValueError).
Proof.
  split; [|split].
  - split; [reflexivity|]. split; [reflexivity|].
    destruct (is_ok (reconstruct_utterances_with_timestamps decimal
                       (transcript pause_items) default_gap)) eqn:E;
      [reflexivity|].
    exact (proj1 (proj1 (proj2 (proj2 fatal_errors_are_structural))
                    decimal (transcript pause_items) default_gap eq_refl) E).
  - split; [reflexivity|].
    apply (proj1 fatal_errors_are_structural). reflexivity.
  - split; [reflexivity|].
    apply (proj1 (proj2 fatal_errors_are_structural)). reflexivity.
Defined.

(** * Further properties *)

(** ** The duplicate filter *)

Section DedupMore.

Variable float_of_str : string -> option Q.

Lemma dedup_loop_shape (rest : list json) :
  forall prev,
  exists tail,
    dedup_loop float_of_str [] prev rest = prev :: tail
    /\ kept_chain float_of_str prev tail
    /\ subseq tail rest.
Proof.
  induction rest as [|curr rest IH]; intro prev.
  - exists []. split; [reflexivity|]. split; [exact I | constructor].
  - simpl. destruct (dedup_keep float_of_str prev curr) eqn:K.
    + destruct (IH curr) as [tail [E [C S]]].
      exists (curr :: tail). rewrite dedup_loop_front, E.
      split; [reflexivity|]. split; [split; assumption|].
      apply subseq_keep. exact S.
    + destruct (IH prev) as [tail [E [C S]]].
      exists tail. split; [exact E|]. split; [exact C|].
      apply subseq_skip. exact S.
Qed.

Lemma dedup_loop_kept (rest : list json) :
  forall front prev,
    kept_chain float_of_str prev rest ->
    dedup_loop float_of_str front prev rest = front ++ prev :: rest.
Proof.
  induction rest as [|curr rest IH]; intros front prev H; simpl.
  - reflexivity.
  - destruct H as [K C]. rewrite K, (IH _ _ C), <- app_assoc. reflexivity.
Qed.

(** X1.  Filtering twice is filtering once: in the output every token
    is one the filter keeps after the token before it. *)
Theorem dedup_idempotent (items : list json) :
  dedup float_of_str (dedup float_of_str items) = dedup float_of_str items.
Proof.
  destruct items as [|first rest]; [reflexivity|]. simpl.
  destruct (dedup_loop_shape rest first) as [tail [E [C _]]].
  rewrite E. simpl. apply (dedup_loop_kept tail [] first C).
Qed.

Lemma subseq_length {A : Type} (l m : list A) :
  subseq l m -> (List.length l <= List.length m)%nat.
Proof. induction 1; simpl; lia. Qed.

(** X2.  The filter returns the tokens of its input in their order, some
    of them left out, never the first one: the output is not longer than
    the input and is empty for the empty input only. *)
Theorem dedup_keeps_order :
  (forall items,
      subseq (dedup float_of_str items) items
      /\ (List.length (dedup float_of_str items) <= List.length items)%nat
      /\ (dedup float_of_str items = [] <-> items = []))
  /\ (forall first rest,
        exists tail, dedup float_of_str (first :: rest) = first :: tail
                     /\ subseq tail rest).
Proof.
  assert (H : forall first rest,
             exists tail, dedup float_of_str (first :: rest) = first :: tail
                          /\ subseq tail rest).
  { intros first rest. simpl.
    destruct (dedup_loop_shape rest first) as [tail [E [_ S]]].
    exists tail. split; assumption. }
  split; [|exact H].
  intro items.
  assert (S : subseq (dedup float_of_str items) items).
  { destruct items as [|first rest]; [constructor|].
    destruct (H first rest) as [tail [E S]].
    rewrite E. apply subseq_keep. exact S. }
  split; [exact S|]. split; [apply subseq_length; exact S|].
  split.
  - destruct items as [|first rest]; [reflexivity|].
    destruct (H first rest) as [tail [E _]]. rewrite E. discriminate.
  - intros ->. reflexivity.
Qed.

Lemma unreadable_raises (it : json) :
  unreadable float_of_str it ->
  (exists e, dedup_time float_of_str it = Err e)
  \/ (exists e, dedup_content it = Err e).
Proof.
  intros [d [-> H]]. unfold dedup_time, dedup_content, py_get, dict_get.
  destruct H as [[v [e [Hv He]]] | [Ha | [[v [Hv Hl]] | H]]].
  - left. rewrite Hv. simpl. eauto.
  - right. rewrite Ha. simpl. eauto.
  - right. rewrite Hv. simpl.
    destruct v as [| | |s|l|d']; simpl; eauto.
    + destruct s; simpl; eauto.
    + exfalso. apply (Hl l). reflexivity.
  - destruct H as [a0 [more [Ha Hd]]]. right. rewrite Ha. simpl.
    destruct a0; simpl; eauto. discriminate.
Qed.

(** X3.  The filter fails open on a field that is there and cannot be
    read: when the start time of the current token or of the last
    retained one is a value on which float raises, or its alternatives
    are an empty list, any value that is not a list (a dict, a string,
    a number, null), or a list whose head is not a dict, the current
    token is retained and becomes the point of comparison. *)
Theorem dedup_fails_open (front : list json) (prev curr : json)
  (rest : list json) :
  unreadable float_of_str prev \/ unreadable float_of_str curr ->
  dedup_loop float_of_str front prev (curr :: rest)
  = dedup_loop float_of_str (front ++ [prev]) curr rest.
Proof.
  intro H.
  assert (K : dedup_keep float_of_str prev curr = true).
  { unfold dedup_keep, distinct_enough.
    destruct (dedup_time float_of_str prev) as [t1|e1] eqn:T1;
      [|reflexivity].
    destruct (dedup_time float_of_str curr) as [t2|e2] eqn:T2;
      [|reflexivity].
    destruct (dedup_content prev) as [c1|e1] eqn:C1; [|reflexivity].
    destruct (dedup_content curr) as [c2|e2] eqn:C2; [|reflexivity].
    exfalso.
    destruct H as [H|H]; apply unreadable_raises in H;
      destruct H as [[e H]|[e H]]; congruence. }
  simpl. rewrite K. reflexivity.
Qed.

End DedupMore.

(** X3, at a word whose start time is null and at a word whose
    alternatives are a dict, each met after the same word well formed. *)
Lemma dedup_fails_open_witness :
  let a := word "1.0" "1.4" spk_0 "Well" in
  let b := JDict [("type", JStr "pronunciation"); ("start_time", JNull);
                  ("alternatives", JList [JDict [("content", JStr "Well")]])]
  in
  let c := JDict [("type", JStr "pronunciation"); ("start_time", JStr "1.0");
                  ("alternatives", JDict [("content", JStr "Well")])]
  in
  (unreadable decimal b /\ dedup decimal [a; b] = [a; b])
  /\ (unreadable decimal c /\ dedup decimal [a; c] = [a; c]).
Proof.
  intros a b c.
  assert (U : unreadable decimal b).
  { exists [("type", JStr "pronunciation"); ("start_time", JNull);
            ("alternatives", JList [JDict [("content", JStr "Well")]])].
    split; [reflexivity|]. left. exists JNull, TypeError.
    split; reflexivity. }
  assert (V : unreadable decimal c).
  { exists [("type", JStr "pronunciation"); ("start_time", JStr "1.0");
            ("alternatives", JDict [("content", JStr "Well")])].
    split; [reflexivity|]. right. right. left.
    exists (JDict [("content", JStr "Well")]).
    split; [reflexivity | discriminate]. }
  split.
  - split; [exact U|].
    exact (@dedup_fails_open decimal [] a b [] (or_intror U)).
  - split; [exact V|].
    exact (@dedup_fails_open decimal [] a c [] (or_intror V)).
Defined.

(** ** The merge of the channels *)

Lemma key_le_total (a b : sort_key) :
  key_le a b = false -> key_le b a = true.
Proof.
  destruct a as [x|], b as [y|]; simpl; try discriminate; try reflexivity.
  intro H. apply Qle_bool_iff.
  destruct (Qlt_le_dec y x) as [L|L].
  - apply Qlt_le_weak. exact L.
  - apply Qle_bool_iff in L. congruence.
Qed.

Lemma key_le_trans (a b c : sort_key) :
  key_le a b = true -> key_le b c = true -> key_le a c = true.
Proof.
  destruct a as [x|], b as [y|], c as [z|]; simpl;
    try discriminate; try reflexivity.
  rewrite !Qle_bool_iff. apply Qle_trans.
Qed.

Lemma insert_key_perm (x : sort_key * json) (l : list (sort_key * json)) :
  Permutation (x :: l) (insert_key x l).
Proof.
  induction l as [|y l IH]; simpl.
  - apply Permutation_refl.
  - destruct (key_le (fst x) (fst y)).
    + apply Permutation_refl.
    + eapply perm_trans; [apply perm_swap|]. apply perm_skip. exact IH.
Qed.

Lemma insert_key_sorted (x : sort_key * json) (l : list (sort_key * json)) :
  StronglySorted key_order l -> StronglySorted key_order (insert_key x l).
Proof.
  induction 1 as [|y l Hl IH Hy]; simpl.
  - constructor; constructor.
  - destruct (key_le (fst x) (fst y)) eqn:E.
    + constructor; [constructor; assumption|].
      constructor; [exact E|].
      eapply Forall_impl; [|exact Hy].
      intros z Hz. unfold key_order in *.
      apply key_le_trans with (fst y); assumption.
    + constructor; [exact IH|].
      apply (Permutation_Forall (insert_key_perm x l)).
      constructor; [|exact Hy].
      apply key_le_total. exact E.
Qed.

Lemma same_key_skipped (k : sort_key) (x y : sort_key * json) :
  same_key k x = true -> key_le (fst x) (fst y) = false ->
  same_key k y = false.
Proof.
  unfold same_key. intros Hx Hxy.
  apply andb_true_iff in Hx. destruct Hx as [H1 H2].
  destruct (key_le k (fst y)) eqn:E; [|reflexivity].
  rewrite (key_le_trans _ _ _ H2 E) in Hxy. discriminate.
Qed.

Lemma insert_key_stable (k : sort_key) (x : sort_key * json)
  (l : list (sort_key * json)) :
  filter (same_key k) (insert_key x l) = filter (same_key k) (x :: l).
Proof.
  induction l as [|y l IH]; simpl.
  - reflexivity.
  - destruct (key_le (fst x) (fst y)) eqn:E; [reflexivity|].
    simpl. rewrite IH. simpl.
    destruct (same_key k x) eqn:Kx; [|reflexivity].
    rewrite (same_key_skipped k x y Kx E). reflexivity.
Qed.

Section SortFacts.

Variable float_of_str : string -> option Q.

Lemma keyed_items (items : list json) :
  forall ks,
    keyed float_of_str items = Ok ks ->
    map snd ks = items
    /\ Forall (fun p => start_key float_of_str (snd p) = Ok (fst p)) ks.
Proof.
  induction items as [|it items IH]; intros ks H; simpl in H.
  - injection H as <-. split; constructor.
  - apply bind_ok in H. destruct H as [k [Hk H]].
    apply bind_ok in H. destruct H as [krest [Hr H]].
    injection H as <-. destruct (IH _ Hr) as [IH1 IH2].
    simpl. rewrite IH1. split; [reflexivity|].
    constructor; assumption.
Qed.

(** X4.  The sort of the merged channels is a stable sort by start
    time: its output is the tokens of its input, in an order in which
    the keys never decrease, and the tokens of one key keep the order
    they had; a token without a start time has the largest key, so sorts
    last. *)
Theorem sorted_by_start_stable (items out : list json) :
  sorted_by_start float_of_str items = Ok out ->
  exists ks,
    keyed float_of_str items = Ok ks
    /\ map snd ks = items
    /\ Forall (fun p => start_key float_of_str (snd p) = Ok (fst p)) ks
    /\ out = map snd (fold_right insert_key [] ks)
    /\ Permutation items out
    /\ StronglySorted key_order (fold_right insert_key [] ks)
    /\ (forall k, filter (same_key k) (fold_right insert_key [] ks)
                  = filter (same_key k) ks)
    /\ (forall k, key_le k KInf = true)
    /\ (forall d, lookup "start_time" d = None ->
                  start_key float_of_str (JDict d) = Ok KInf).
Proof.
  unfold sorted_by_start. intro H.
  apply bind_ok in H. destruct H as [ks [Hks H]]. injection H as <-.
  destruct (keyed_items items Hks) as [Hsnd Hkeys].
  exists ks.
  assert (P : Permutation ks (fold_right insert_key [] ks)).
  { clear. induction ks as [|k ks IH]; simpl; [constructor|].
    eapply perm_trans; [|apply insert_key_perm].
    apply perm_skip. exact IH. }
  repeat split; try assumption; try reflexivity.
  - rewrite <- Hsnd. apply Permutation_map. exact P.
  - clear. induction ks as [|k ks IH]; simpl; [constructor|].
    apply insert_key_sorted. exact IH.
  - intro k. clear. induction ks as [|x ks IH]; simpl; [reflexivity|].
    rewrite insert_key_stable. simpl. rewrite IH. reflexivity.
  - intro k. destruct k; reflexivity.
  - intros d Hd. simpl. rewrite Hd. reflexivity.
Qed.

End SortFacts.

(** X4, at two words of one start time followed on their channels by a
    later word and by a full stop. *)
Lemma sorted_by_start_stable_witness :
  let a := word "1.0" "2.0" spk_0 "Order" in
  let b := word "1.0" "1.4" spk_1 "Point" in
  let c := word "0.5" "0.9" spk_1 "Chair" in
  sorted_by_start decimal [a; punct "."; b; c] = Ok [c; a; b; punct "."]
  /\ Permutation [a; punct "."; b; c] [c; a; b; punct "."].
Proof.
  intros a b c.
  assert (E : sorted_by_start decimal [a; punct "."; b; c]
              = Ok [c; a; b; punct "."]).
  { vm_compute. reflexivity. }
  split; [exact E|].
  destruct (sorted_by_start_stable decimal _ E)
    as (ks & _ & _ & _ & _ & P & _).
  exact P.
Defined.

(** ** The harvest and the ranges *)

Section HarvestFacts.

Variable float_of_str : string -> option Q.

Lemma sorted_by_start_dicts (items out : list json) :
  sorted_by_start float_of_str (filter is_dict items) = Ok out ->
  Forall (fun it => is_dict it = true) out.
Proof.
  unfold sorted_by_start. intro H.
  apply bind_ok in H. destruct H as [ks [Hks H]]. injection H as <-.
  destruct (keyed_items _ _ Hks) as [Hsnd _].
  apply Forall_forall. intros it Hit.
  apply in_map_iff in Hit. destruct Hit as [y [<- Hy]].
  apply sort_In in Hy.
  assert (Hin : In (snd y) (filter is_dict items)).
  { rewrite <- Hsnd. apply in_map. exact Hy. }
  apply filter_In in Hin. exact (proj2 Hin).
Qed.

(** X5.  The harvest returns dicts only.  When [channel_labels] is
    there, [items] is not read: the harvest is the same whatever else
    [results] holds, and it is empty when [channel_labels] is neither a
    list nor a dict.  Without [channel_labels], an [items] that is not a
    list gives no token and no error. *)
Theorem harvest_sources :
  (forall r out,
      harvest float_of_str r = Ok out ->
      Forall (fun it => is_dict it = true) out)
  /\ (forall r r' c,
        lookup "channel_labels" r = Some c ->
        lookup "channel_labels" r' = Some c ->
        harvest float_of_str r = harvest float_of_str r')
  /\ (forall r c,
        lookup "channel_labels" r = Some c ->
        list_or_dict c = false ->
        harvest float_of_str r = Ok [])
  /\ (forall r v,
        lookup "channel_labels" r = None ->
        lookup "items" r = Some v ->
        (forall l, v <> JList l) ->
        harvest float_of_str r = Ok []).
Proof.
  split; [|split; [|split]].
  - intros r out. unfold harvest.
    destruct (lookup "channel_labels" r) as [c|].
    + intro H. apply bind_ok in H. destruct H as [chs [_ H]].
      eapply sorted_by_start_dicts. exact H.
    + destruct (lookup "items" r) as [[| | | |raw|]|]; intro H;
        try discriminate; injection H as <-; try constructor.
      apply Forall_forall. intros it Hit.
      apply filter_In in Hit. exact (proj2 Hit).
  - intros r r' c H H'. unfold harvest. rewrite H, H'. reflexivity.
  - intros r c H Hc. unfold harvest. rewrite H.
    destruct c; try discriminate; reflexivity.
  - intros r v Hc Hi Hl. unfold harvest. rewrite Hc, Hi.
    destruct v; try reflexivity. exfalso. apply (Hl l). reflexivity.
Qed.

Lemma ranges_of_segments_labels (segs : list json) :
  forall ranges,
    ranges_of_segments float_of_str segs = Ok ranges ->
    Forall (fun r : range => snd r <> JNull) ranges
    /\ (List.length ranges <= List.length segs)%nat.
Proof.
  induction segs as [|sg segs IH]; intros ranges H; simpl in H.
  - injection H as <-. split; [constructor | apply Nat.le_refl].
  - destruct sg as [| | | | |d];
      try (destruct (IH _ H) as [F L]; split; [exact F | simpl; lia]).
    apply bind_ok in H. destruct H as [st [_ H]].
    apply bind_ok in H. destruct H as [en [_ H]].
    apply bind_ok in H. destruct H as [rs [Hrs H]].
    injection H as <-. destruct (IH _ Hrs) as [F L].
    destruct (dict_get d "speaker_label" JNull) eqn:E; simpl;
      (split; [|simpl; lia]); try exact F;
      constructor; try exact F; simpl; discriminate.
Qed.

(** X6.  The ranges do not depend on the shape of [speaker_labels]: a
    list of segments and a dict that holds the same list under
    [segments] give the same ranges, the ones of the loop over the
    segments; a missing section and a section of another type give no
    range.  A range never has a null label, and there are no more
    ranges than segments. *)
Theorem build_ranges_shapes :
  (forall top r,
      dict_get top "results" (JDict []) = JDict r ->
      lookup "speaker_labels" r = None ->
      _build_ranges float_of_str (JDict top) = Ok [])
  /\ (forall top r segs,
        dict_get top "results" (JDict []) = JDict r ->
        lookup "speaker_labels" r = Some (JList segs) ->
        _build_ranges float_of_str (JDict top)
        = ranges_of_segments float_of_str segs)
  /\ (forall top r l segs,
        dict_get top "results" (JDict []) = JDict r ->
        lookup "speaker_labels" r = Some (JDict l) ->
        lookup "segments" l = Some (JList segs) ->
        _build_ranges float_of_str (JDict top)
        = ranges_of_segments float_of_str segs)
  /\ (forall top r v,
        dict_get top "results" (JDict []) = JDict r ->
        lookup "speaker_labels" r = Some v ->
        list_or_dict v = false ->
        _build_ranges float_of_str (JDict top) = Ok [])
  /\ (forall segs ranges,
        ranges_of_segments float_of_str segs = Ok ranges ->
        Forall (fun r : range => snd r <> JNull) ranges
        /\ (List.length ranges <= List.length segs)%nat).
Proof.
  split; [|split; [|split; [|split]]].
  - intros top r Hr Hl. unfold _build_ranges. simpl. rewrite Hr, Hl.
    reflexivity.
  - intros top r segs Hr Hl. unfold _build_ranges. simpl. rewrite Hr, Hl.
    reflexivity.
  - intros top r l segs Hr Hl Hs. unfold _build_ranges. simpl.
    rewrite Hr, Hl. unfold dict_get. rewrite Hs. reflexivity.
  - intros top r v Hr Hl Hv. unfold _build_ranges. simpl. rewrite Hr, Hl.
    destruct v; try discriminate; reflexivity.
  - apply ranges_of_segments_labels.
Qed.

End HarvestFacts.

(** X5, at a [results] whose [channel_labels] is null beside a list of
    items. *)
Lemma harvest_sources_witness :
  let r := [("channel_labels", JNull); ("items", JList pause_items)] in
  lookup "channel_labels" r = Some JNull
  /\ list_or_dict JNull = false
  /\ harvest decimal r = Ok [].
Proof.
  intro r. split; [reflexivity|]. split; [reflexivity|].
  apply (proj1 (proj2 (proj2 (harvest_sources decimal))) r JNull);
    reflexivity.
Defined.

(** X6, at one segment listed under [segments] and listed directly. *)
Lemma build_ranges_shapes_witness :
  let sg := JDict [("start_time", JStr "0.0"); ("end_time", JStr "5.0");
                   ("speaker_label", spk_0)] in
  _build_ranges decimal
    (JDict [("results",
             JDict [("speaker_labels", JDict [("segments", JList [sg])])])])
  = Ok [(0, 5, spk_0)]
  /\ _build_ranges decimal
       (JDict [("results", JDict [("speaker_labels", JList [sg])])])
     = Ok [(0, 5, spk_0)].
Proof.
  intro sg. split.
  - rewrite (proj1 (proj2 (proj2 (build_ranges_shapes decimal)))
               [("results",
                 JDict [("speaker_labels",
                         JDict [("segments", JList [sg])])])]
               [("speaker_labels", JDict [("segments", JList [sg])])]
               [("segments", JList [sg])] [sg] eq_refl eq_refl eq_refl).
    reflexivity.
  - rewrite (proj1 (proj2 (build_ranges_shapes decimal))
               [("results", JDict [("speaker_labels", JList [sg])])]
               [("speaker_labels", JList [sg])] [sg] eq_refl eq_refl).
    reflexivity.
Defined.

(** ** Times and number of the utterances *)

Lemma flush_timed (b : buffer) (us us' : list utterance) :
  Forall timed us ->
  (truthy (cur_speaker_label b) = true ->
   cur_start_time b <> None /\ cur_end_time b <> None) ->
  _flush b us = Ok us' ->
  Forall timed us'.
Proof.
  intros Hus Hb. unfold _flush. destruct (emits b) eqn:E.
  - intro H. bind_inv H. injection H as <-.
    apply Forall_app. split; [exact Hus|].
    constructor; [|constructor].
    unfold emits in E. apply andb_true_iff in E.
    exact (Hb (proj1 E)).
  - intro H. injection H as <-. exact Hus.
Qed.

Lemma flush_length (b : buffer) (us us' : list utterance) :
  _flush b us = Ok us' ->
  (List.length us' <= List.length us
                      + (if truthy (cur_speaker_label b) then 1 else 0))%nat.
Proof.
  unfold _flush, emits.
  destruct (truthy (cur_speaker_label b)); simpl.
  - destruct (nonempty (text_parts b)).
    + intro H. bind_inv H. injection H as <-.
      rewrite length_app. simpl. lia.
    + intro H. injection H as <-. lia.
  - intro H. injection H as <-. lia.
Qed.

Section CountFacts.

Variable float_of_str : string -> option Q.

Lemma pronunciation_timed ranges gap d content (s s' : seg_state) :
  timed_state s ->
  pronunciation float_of_str ranges gap d content s = Ok s' ->
  timed_state s' /\ (weight s' <= weight s + 1)%nat.
Proof.
  intros [Hus Hcur] H. unfold pronunciation in H.
  bind_inv H. bind_inv H. bind_inv H. bind_inv H. injection H as <-.
  destruct (flush_trigger gap s _ a).
  - bind_inv E1. injection E1 as <-. unfold timed_state, weight. simpl.
    split.
    + split; [eapply flush_timed; eassumption|].
      intros _. split; discriminate.
    + pose proof (flush_length _ _ E3) as L.
      destruct (truthy (resolve_label ranges d a (cur s)));
        unfold weight; lia.
  - injection E1 as <-. unfold timed_state, weight. simpl.
    split; [|lia].
    split; [exact Hus|].
    intro T. split; [exact (proj1 (Hcur T)) | discriminate].
Qed.

Lemma seg_step_timed ranges gap (s s' : seg_state) (it : json) :
  timed_state s ->
  seg_step float_of_str ranges gap s it = Ok s' ->
  timed_state s'
  /\ (weight s'
      <= weight s + List.length (timeline float_of_str [it]))%nat.
Proof.
  intros Hs H. simpl.
  destruct (span_of float_of_str it) as [[st en]|] eqn:Esp.
  - destruct (span_of_step _ _ Esp)
      as (d & a0 & more & -> & Ea & Et & Est & Een).
    unfold seg_step in H. rewrite Ea, Et in H.
    apply (pronunciation_timed _ _ _ _ Hs H).
  - destruct (seg_step_no_span _ _ _ _ _ Esp H) as [-> | [c ->]].
    + split; [exact Hs | simpl; lia].
    + split; [exact Hs | unfold weight; simpl; lia].
Qed.

Lemma timeline_cons (it : json) (rest : list json) :
  List.length (timeline float_of_str (it :: rest))
  = (List.length (timeline float_of_str [it])
     + List.length (timeline float_of_str rest))%nat.
Proof.
  simpl. destruct (span_of float_of_str it); reflexivity.
Qed.

Lemma seg_loop_timed ranges gap (items : list json) :
  forall s s',
    timed_state s ->
    seg_loop float_of_str ranges gap items s = Ok s' ->
    timed_state s'
    /\ (weight s'
        <= weight s + List.length (timeline float_of_str items))%nat.
Proof.
  induction items as [|it rest IH]; intros s s' Hs H.
  - simpl in H. injection H as <-. split; [exact Hs | simpl; lia].
  - simpl in H. bind_inv H.
    destruct (@seg_step_timed ranges gap s a it Hs E) as [Hs1 L1].
    destruct (IH _ _ Hs1 H) as [Hs' L'].
    split; [exact Hs'|]. rewrite timeline_cons. lia.
Qed.

Lemma segment_timed ranges gap (items : list json) (us : list utterance) :
  segment float_of_str ranges gap items = Ok us ->
  Forall timed us
  /\ (List.length us <= List.length (timeline float_of_str items))%nat.
Proof.
  intro H. unfold segment in H. bind_inv H.
  assert (I : timed_state init_state).
  { split; [constructor | discriminate]. }
  destruct (@seg_loop_timed ranges gap items init_state a I E)
    as [[Hus Hcur] L].
  split.
  - eapply flush_timed; eassumption.
  - pose proof (flush_length _ _ H) as F.
    unfold weight in L. simpl in L. lia.
Qed.

End CountFacts.

Lemma gap_ok_timed (g : option Q) (u last : utterance) :
  timed u -> timed last -> exists ok, gap_ok g u last = Ok ok.
Proof.
  intros [Hu _] [_ Hl]. unfold gap_ok. destruct g as [g|]; [|eauto].
  destruct (start_time u); [|contradiction].
  destruct (end_time last); [|contradiction]. eauto.
Qed.

Lemma coalesce_loop_timed (g : option Q) (rest : list utterance) :
  forall front last,
    Forall timed front -> timed last -> Forall timed rest ->
    exists out, coalesce_loop g front last rest = Ok out
                /\ Forall timed out.
Proof.
  induction rest as [|u rest IH]; intros front last Hf Hl Hr; simpl.
  - eexists. split; [reflexivity|].
    apply Forall_app. split; [exact Hf | constructor; [exact Hl | constructor]].
  - inversion Hr as [|? ? Hu Hrest]; subst.
    destruct (gap_ok_timed g Hu Hl) as [ok ->]. simpl.
    destruct (same_speaker u last && ok).
    + apply IH; [exact Hf | | exact Hrest].
      destruct Hl as [Hs _], Hu as [_ He]. split; assumption.
    + apply IH; [|exact Hu | exact Hrest].
      apply Forall_app. split; [exact Hf | constructor; [exact Hl | constructor]].
Qed.

(** X7.  Every utterance of the reconstruction has a number for its
    start time and for its end time, never None; so coalescing the
    output never raises, whatever the gap, and keeps the times
    numbers. *)
Theorem reconstructed_utterances_are_timed
  (float_of_str : string -> option Q) (transcribe : json) (gap_seconds : Q)
  (us : list utterance) :
  reconstruct_utterances_with_timestamps float_of_str transcribe gap_seconds
  = Ok us ->
  Forall timed us
  /\ forall g, exists out,
       coalesce_utterances us g = Ok out /\ Forall timed out.
Proof.
  intro H. rewrite reconstruct_read_tokens in H.
  bind_inv H. bind_inv H.
  destruct (@segment_timed float_of_str a0 gap_seconds a us H) as [T _].
  split; [exact T|]. intro g.
  destruct us as [|first rest]; simpl.
  - exists []. split; [reflexivity | constructor].
  - inversion T; subst.
    apply coalesce_loop_timed; [constructor | assumption | assumption].
Qed.

(** X8.  There are no more utterances than pronunciation tokens that
    reach the segmentation; a transcript without any, one of
    punctuation only, gives no utterance. *)
Theorem utterances_bounded_by_words
  (float_of_str : string -> option Q) (transcribe : json) (gap_seconds : Q)
  (items : list json) (us : list utterance) :
  read_tokens float_of_str transcribe = Ok items ->
  reconstruct_utterances_with_timestamps float_of_str transcribe gap_seconds
  = Ok us ->
  (List.length us <= List.length (timeline float_of_str items))%nat
  /\ (timeline float_of_str items = [] -> us = []).
Proof.
  intros Hitems H. rewrite reconstruct_read_tokens, Hitems in H.
  simpl in H. bind_inv H.
  destruct (@segment_timed float_of_str a gap_seconds items us H)
    as [_ L].
  split; [exact L|].
  intro Hnil. rewrite Hnil in L.
  destruct us; [reflexivity | simpl in L; lia].
Qed.

(** X7, at the pause example. *)
Lemma reconstructed_utterances_are_timed_witness :
  reconstruct_utterances_with_timestamps decimal (transcript pause_items)
    default_gap
  = Ok [Utterance spk_0 (Some (19 # 2)) (Some 10) "hello";
        Utterance spk_0 (Some 12) (Some (25 # 2)) "again"]
  /\ exists out,
       coalesce_utterances
         [Utterance spk_0 (Some (19 # 2)) (Some 10) "hello";
          Utterance spk_0 (Some 12) (Some (25 # 2)) "again"] (Some 3)
       = Ok out /\ Forall timed out.
Proof.
  assert (E : reconstruct_utterances_with_timestamps decimal
                (transcript pause_items) default_gap
              = Ok [Utterance spk_0 (Some (19 # 2)) (Some 10) "hello";
                    Utterance spk_0 (Some 12) (Some (25 # 2)) "again"]).
  { vm_compute. reflexivity. }
  split; [exact E|].
  exact (proj2 (reconstructed_utterances_are_timed decimal _ _ E) (Some 3)).
Defined.

(** X8, at a transcript of two full stops. *)
Lemma utterances_bounded_by_words_witness :
  read_tokens decimal (transcript [punct "."; punct "!"])
  = Ok [punct "."; punct "!"]
  /\ reconstruct_utterances_with_timestamps decimal
       (transcript [punct "."; punct "!"]) default_gap = Ok []
  /\ (List.length (@nil utterance)
      <= List.length (timeline decimal [punct "."; punct "!"]))%nat.
Proof.
  assert (T : read_tokens decimal (transcript [punct "."; punct "!"])
              = Ok [punct "."; punct "!"]).
  { vm_compute. reflexivity. }
  assert (E : reconstruct_utterances_with_timestamps decimal
                (transcript [punct "."; punct "!"]) default_gap = Ok []).
  { vm_compute. reflexivity. }
  split; [exact T|]. split; [exact E|].
  exact (proj1 (utterances_bounded_by_words decimal _ _ T E)).
Defined.

(** ** How the text of an utterance is put together *)

Lemma not_exceeded (gap st e : Q) :
  fsub st e <= gap -> Qltb gap (fsub st e) = false.
Proof.
  intro H. unfold Qltb. apply negb_false_iff. apply Qle_bool_iff. exact H.
Qed.

Ltac seg_eval := cbn -[Qltb Qle_bool strip fsub py_float joiner pronunciation].

(** The step of a pronunciation token whose times are converted, met
    in a state that is known. *)
Ltac seg_word Hst Hen :=
  unfold pronunciation at 1; seg_eval; rewrite Hst, Hen; seg_eval;
  unfold resolve_label, flush_trigger; seg_eval.

(** X9.  The gap test is strict and the label test comes first.  Two
    words of one speaker whose distance, as the float subtraction gives
    it, is at most the gap, the gap itself included, make one utterance
    from the start of the first to the end of the second, the texts
    joined by one space unless the first ends in a blank; punctuation
    between them is attached to the first word without a space.  Two
    words of different speakers make two utterances however close they
    are. *)
Theorem words_within_gap_join :
  (forall float_of_str ranges gap_seconds l c1 c2 v1 w1 v2 w2 s1 e1 s2 e2,
      l <> "" ->
      py_float float_of_str v1 = Ok s1 ->
      py_float float_of_str w1 = Ok e1 ->
      py_float float_of_str v2 = Ok s2 ->
      py_float float_of_str w2 = Ok e2 ->
      fsub s2 e1 <= gap_seconds ->
      segment float_of_str ranges gap_seconds
        [spoken l v1 w1 c1; spoken l v2 w2 c2]
      = Ok [Utterance (JStr l) (Some s1) (Some e2)
              (strip (c1 ++ joiner c1 ++ c2))])
  /\ (forall float_of_str ranges gap_seconds l c1 p c2 v1 w1 v2 w2
             s1 e1 s2 e2,
        l <> "" ->
        py_float float_of_str v1 = Ok s1 ->
        py_float float_of_str w1 = Ok e1 ->
        py_float float_of_str v2 = Ok s2 ->
        py_float float_of_str w2 = Ok e2 ->
        fsub s2 e1 <= gap_seconds ->
        segment float_of_str ranges gap_seconds
          [spoken l v1 w1 c1; punct p; spoken l v2 w2 c2]
        = Ok [Utterance (JStr l) (Some s1) (Some e2)
                (strip (c1 ++ p ++ joiner p ++ c2))])
  /\ (forall float_of_str ranges gap_seconds l1 l2 c1 c2 v1 w1 v2 w2
             s1 e1 s2 e2,
        l1 <> "" -> l2 <> "" -> l1 <> l2 ->
        py_float float_of_str v1 = Ok s1 ->
        py_float float_of_str w1 = Ok e1 ->
        py_float float_of_str v2 = Ok s2 ->
        py_float float_of_str w2 = Ok e2 ->
        segment float_of_str ranges gap_seconds
          [spoken l1 v1 w1 c1; spoken l2 v2 w2 c2]
        = Ok [Utterance (JStr l1) (Some s1) (Some e1) (strip c1);
              Utterance (JStr l2) (Some s2) (Some e2) (strip c2)]).
Proof.
  split; [|split].
  - intros f ranges gap l c1 c2 v1 w1 v2 w2 s1 e1 s2 e2 Hl H1 H2 H3 H4 Hgap.
    pose proof (@not_exceeded gap s2 e1 Hgap) as G.
    destruct (String.eqb l "") eqn:E;
      [apply String.eqb_eq in E; contradiction|].
    unfold segment, spoken. seg_eval.
    seg_word H1 H2. rewrite E. seg_eval.
    seg_word H3 H4. rewrite E. seg_eval.
    rewrite G, String.eqb_refl. seg_eval.
    unfold add_space, joiner. cbn -[Qltb strip fsub].
    destruct (ends_with_blank c1); cbn -[Qltb strip fsub];
      unfold _flush, emits; cbn -[Qltb strip fsub]; rewrite E;
      cbn -[Qltb strip fsub]; rewrite ?append_empty; reflexivity.
  - intros f ranges gap l c1 p c2 v1 w1 v2 w2 s1 e1 s2 e2 Hl H1 H2 H3 H4
      Hgap.
    pose proof (@not_exceeded gap s2 e1 Hgap) as G.
    destruct (String.eqb l "") eqn:E;
      [apply String.eqb_eq in E; contradiction|].
    unfold segment, spoken, punct. seg_eval.
    seg_word H1 H2. rewrite E. seg_eval.
    seg_word H3 H4. rewrite E. seg_eval.
    rewrite G, String.eqb_refl. seg_eval.
    unfold add_space, joiner. cbn -[Qltb strip fsub].
    destruct (ends_with_blank p); cbn -[Qltb strip fsub];
      unfold _flush, emits; cbn -[Qltb strip fsub]; rewrite E;
      cbn -[Qltb strip fsub]; rewrite ?append_empty; reflexivity.
  - intros f ranges gap l1 l2 c1 c2 v1 w1 v2 w2 s1 e1 s2 e2 Hl1 Hl2 Hd
      H1 H2 H3 H4.
    destruct (String.eqb l1 "") eqn:E1;
      [apply String.eqb_eq in E1; contradiction|].
    destruct (String.eqb l2 "") eqn:E2;
      [apply String.eqb_eq in E2; contradiction|].
    destruct (String.eqb l2 l1) eqn:E;
      [apply String.eqb_eq in E; congruence|].
    unfold segment, spoken. seg_eval.
    seg_word H1 H2. rewrite E1. seg_eval.
    seg_word H3 H4. rewrite E2. seg_eval.
    rewrite E. seg_eval.
    unfold _flush, emits. cbn -[Qltb strip fsub]. rewrite E1.
    cbn -[Qltb strip fsub]. rewrite E2, !append_empty. reflexivity.
Qed.

(** X9, at words that end at 0.3 and start at 1.5: the floats are more
    than the float 1.2 apart, and their float difference is the float
    1.2 itself, so that the default gap is not exceeded. *)
Lemma words_within_gap_join_witness :
  "spk_0" <> ""
  /\ fsub (double (15 # 10)) (double (3 # 10)) <= default_gap
  /\ default_gap < double (15 # 10) - double (3 # 10)
  /\ segment decimal [] default_gap
       [spoken "spk_0" (JStr "0.0") (JStr "0.3") "hello"; punct ",";
        spoken "spk_0" (JStr "1.5") (JStr "2.0") "again"]
     = Ok [Utterance spk_0 (Some 0) (Some 2) "hello, again"].
Proof.
  assert (G : fsub (double (15 # 10)) (double (3 # 10)) <= default_gap).
  { apply Qle_bool_iff. vm_compute. reflexivity. }
  split; [discriminate|].
  split; [exact G|].
  split; [vm_compute; reflexivity|].
  apply (proj1 (proj2 words_within_gap_join) decimal [] default_gap
           "spk_0" "hello" "," "again"
           (JStr "0.0") (JStr "0.3") (JStr "1.5") (JStr "2.0")
           0 (double (3 # 10)) (double (15 # 10)) 2);
    [discriminate | reflexivity | reflexivity | reflexivity | reflexivity
    | exact G].
Defined.

(** X10.  The last known speaker persists: a word without a label of
    its own that starts outside every range is given the label of the
    buffer, so that within the gap, as the float subtraction measures
    it, it continues the utterance of the word before it. *)
Theorem last_speaker_persists
  (float_of_str : string -> option Q) (gap_seconds : Q) (l : string)
  (a b : Q) (c1 c2 : string) (v1 w1 v2 w2 : json) (s1 e1 s2 e2 : Q) :
  l <> "" ->
  py_float float_of_str v1 = Ok s1 ->
  py_float float_of_str w1 = Ok e1 ->
  py_float float_of_str v2 = Ok s2 ->
  py_float float_of_str w2 = Ok e2 ->
  a <= s1 -> s1 < b ->
  ~ (a <= s2 /\ s2 < b) ->
  fsub s2 e1 <= gap_seconds ->
  segment float_of_str [(a, b, JStr l)] gap_seconds
    [bare_word v1 w1 c1; bare_word v2 w2 c2]
  = Ok [Utterance (JStr l) (Some s1) (Some e2)
          (strip (c1 ++ joiner c1 ++ c2))].
Proof.
  intros Hl H1 H2 H3 H4 Ha Hb Hout Hgap.
  pose proof (@not_exceeded gap_seconds s2 e1 Hgap) as G.
  assert (I1 : Qle_bool a s1 && Qltb s1 b = true).
  { apply (in_range_test a b (JStr l)). split; assumption. }
  assert (I2 : Qle_bool a s2 && Qltb s2 b = false).
  { destruct (Qle_bool a s2 && Qltb s2 b) eqn:E; [|reflexivity].
    apply (in_range_test a b (JStr l)) in E. contradiction. }
  destruct (String.eqb l "") eqn:E;
    [apply String.eqb_eq in E; contradiction|].
  unfold segment, bare_word. seg_eval.
  seg_word H1 H2. rewrite I1. seg_eval.
  seg_word H3 H4. rewrite I2. seg_eval.
  rewrite G, String.eqb_refl. seg_eval.
  unfold add_space, joiner. cbn -[Qltb strip fsub Qle_bool].
  destruct (ends_with_blank c1); cbn -[Qltb strip fsub Qle_bool];
    unfold _flush, emits; cbn -[Qltb strip fsub Qle_bool]; rewrite E;
    cbn -[Qltb strip fsub Qle_bool]; rewrite ?append_empty; reflexivity.
Qed.

(** X10, at a word inside the range of the first speaker and a word
    after its end. *)
Lemma last_speaker_persists_witness :
  segment decimal [(0, 5, spk_0)] default_gap
    [bare_word (JStr "4.0") (JStr "4.5") "point";
     bare_word (JStr "5.0") (JStr "5.5") "taken"]
  = Ok [Utterance spk_0 (Some 4) (Some (11 # 2)) "point taken"].
Proof.
  apply (@last_speaker_persists decimal default_gap "spk_0" 0 5
           "point" "taken"
           (JStr "4.0") (JStr "4.5") (JStr "5.0") (JStr "5.5")
           4 (9 # 2) 5 (11 # 2)).
  - discriminate.
  - reflexivity.
  - reflexivity.
  - reflexivity.
  - reflexivity.
  - apply Qle_bool_iff. reflexivity.
  - reflexivity.
  - intros [_ H]. apply Qltb_lt in H. discriminate.
  - apply Qle_bool_iff. vm_compute. reflexivity.
Defined.

(** ** What coalescing keeps *)

Lemma subseq_widen {A : Type} (l m : list A) (x y : A) :
  subseq l (x :: m) -> subseq l (x :: y :: m).
Proof.
  intro H. inversion H; subst.
  - apply subseq_skip. apply subseq_skip. assumption.
  - apply subseq_keep. apply subseq_skip. assumption.
Qed.

(** A field that a merge takes from the utterance it extends. *)
Lemma coalesce_loop_first_field {B : Type} (p : utterance -> B)
  (g : option Q) :
  (forall last u, p (merge last u) = p last) ->
  forall rest front last out,
    coalesce_loop g front last rest = Ok out ->
    exists tail,
      out = front ++ tail
      /\ subseq (map p tail) (map p (last :: rest)).
Proof.
  intro Hp. induction rest as [|u rest IH]; intros front last out H;
    simpl in H.
  - injection H as <-. exists [last]. split; [reflexivity|].
    simpl. apply subseq_keep. constructor.
  - apply bind_ok in H. destruct H as [ok [_ H]].
    destruct (same_speaker u last && ok).
    + destruct (IH _ _ _ H) as [tail [-> S]].
      exists tail. split; [reflexivity|].
      simpl in *. rewrite Hp in S. apply subseq_widen. exact S.
    + destruct (IH _ _ _ H) as [tail [-> S]].
      exists (last :: tail). split; [rewrite <- app_assoc; reflexivity|].
      simpl. apply subseq_keep. exact S.
Qed.

Lemma last_nonempty {A : Type} (l : list A) (d d' : A) :
  l <> [] -> List.last l d = List.last l d'.
Proof.
  induction l as [|x l IH]; intro H; [contradiction|].
  destruct l as [|y l']; [reflexivity|].
  change (List.last (y :: l') d = List.last (y :: l') d').
  apply IH. discriminate.
Qed.

(** A field that a merge takes from the utterance it absorbs. *)
Lemma coalesce_loop_last_field {B : Type} (p : utterance -> B)
  (g : option Q) :
  (forall last u, p (merge last u) = p u) ->
  forall rest front last out,
    coalesce_loop g front last rest = Ok out ->
    exists tail,
      out = front ++ tail
      /\ tail <> []
      /\ subseq (map p tail) (map p (last :: rest))
      /\ p (List.last tail last) = p (List.last rest last).
Proof.
  intro Hp. induction rest as [|u rest IH]; intros front last out H;
    simpl in H.
  - injection H as <-. exists [last]. split; [reflexivity|].
    split; [discriminate|]. split; [|reflexivity].
    simpl. apply subseq_keep. constructor.
  - apply bind_ok in H. destruct H as [ok [_ H]].
    destruct (same_speaker u last && ok).
    + destruct (IH _ _ _ H) as [tail [-> [T [S L]]]].
      exists tail. split; [reflexivity|]. split; [exact T|]. split.
      * simpl in *. rewrite Hp in S. apply subseq_skip. exact S.
      * rewrite (last_nonempty last (merge last u) T), L.
        destruct rest as [|v rest'].
        -- simpl. apply Hp.
        -- change (List.last (u :: v :: rest') last)
             with (List.last (v :: rest') last).
           f_equal. apply last_nonempty. discriminate.
    + destruct (IH _ _ _ H) as [tail [-> [T [S L]]]].
      exists (last :: tail). split; [rewrite <- app_assoc; reflexivity|].
      split; [discriminate|]. split.
      * simpl. apply subseq_keep. exact S.
      * destruct tail as [|t tail']; [contradiction|].
        change (List.last (last :: t :: tail') last)
          with (List.last (t :: tail') last).
        rewrite (last_nonempty last u T), L.
        destruct rest as [|v rest']; [reflexivity|].
        change (List.last (u :: v :: rest') last)
          with (List.last (v :: rest') last).
        f_equal. apply last_nonempty. discriminate.
Qed.

Lemma coalesce_loop_none_total (rest : list utterance) :
  forall front last, exists out, coalesce_loop None front last rest = Ok out.
Proof.
  induction rest as [|u rest IH]; intros front last; simpl.
  - eauto.
  - destruct (same_speaker u last && true); apply IH.
Qed.

Lemma settled_alternate (tail : list utterance) :
  forall last, settled_from None last tail -> speakers_alternate (last :: tail).
Proof.
  induction tail as [|u tail IH]; intros last H.
  - simpl. auto.
  - destruct H as [[ok [Hg Hm]] Ht].
    simpl in Hg. injection Hg as <-. rewrite andb_true_r in Hm.
    split; [exact Hm | apply IH; exact Ht].
Qed.

(** X11.  Without a gap the coalescing never raises, and in its output
    no utterance has the label of the one before it: every run of one
    speaker has become one utterance. *)
Theorem coalesce_without_gap (us : list utterance) :
  exists out,
    coalesce_utterances us None = Ok out /\ speakers_alternate out.
Proof.
  destruct us as [|first rest]; simpl.
  - exists []. split; [reflexivity | exact I].
  - destruct (coalesce_loop_none_total rest [] first) as [out E].
    exists out. split; [exact E|].
    destruct (@coalesce_loop_settles None rest [] first out E)
      as [last' [tail [-> [_ [_ Ht]]]]].
    apply settled_alternate. exact Ht.
Qed.

(** X12.  Under any gap the coalescing keeps the order of the
    utterances: the labels, the start times and the end times of its
    output are those of its input with some left out, so the output is
    not longer than the input and is empty for the empty input only.
    The first utterance keeps its label and its start time, and the
    last utterance of the output ends when the last one of the input
    ends. *)
Theorem coalesce_keeps_order (us : list utterance) (g : option Q)
  (out : list utterance) :
  coalesce_utterances us g = Ok out ->
  subseq (map speaker_label out) (map speaker_label us)
  /\ subseq (map start_time out) (map start_time us)
  /\ subseq (map end_time out) (map end_time us)
  /\ (List.length out <= List.length us)%nat
  /\ (out = [] <-> us = [])
  /\ match us, out with
     | first :: _, h :: _ =>
         speaker_label h = speaker_label first
         /\ start_time h = start_time first
         /\ end_time (List.last out first) = end_time (List.last us first)
     | [], [] => True
     | _, _ => False
     end.
Proof.
  destruct us as [|first rest]; simpl; intro H.
  - injection H as <-. repeat split; try constructor; auto.
  - destruct (@coalesce_loop_first_field _ speaker_label g
                (fun _ _ => eq_refl) rest [] first out H) as [t1 [E1 S1]].
    destruct (@coalesce_loop_first_field _ start_time g
                (fun _ _ => eq_refl) rest [] first out H) as [t2 [E2 S2]].
    destruct (@coalesce_loop_last_field _ end_time g
                (fun _ _ => eq_refl) rest [] first out H)
      as [t3 [E3 [T3 [S3 L3]]]].
    destruct (@coalesce_loop_settles g rest [] first out H)
      as [last' [tail [E4 [Hl [Hs _]]]]].
    simpl in E1, E2, E3, E4. subst t1 t2 t3.
    split; [exact S1|]. split; [exact S2|]. split; [exact S3|].
    split.
    { apply subseq_length in S1. rewrite !length_map in S1. exact S1. }
    split.
    { split; intro K; [contradiction | discriminate]. }
    rewrite E4. rewrite E4 in L3.
    split; [exact Hl|]. split; [exact Hs|].
    destruct rest as [|v rest']; exact L3.
Qed.

(** X12, at the two utterances of the pause example under a gap of 2,
    which merges them. *)
Lemma coalesce_keeps_order_witness :
  let a := Utterance spk_0 (Some (19 # 2)) (Some 10) "hello" in
  let b := Utterance spk_0 (Some 12) (Some (25 # 2)) "again" in
  coalesce_utterances [a; b] (Some 2)
  = Ok [Utterance spk_0 (Some (19 # 2)) (Some (25 # 2)) "hello again"]
  /\ subseq [Some (25 # 2)] [Some 10; Some (25 # 2)].
Proof.
  intros a b.
  assert (E : coalesce_utterances [a; b] (Some 2)
              = Ok [Utterance spk_0 (Some (19 # 2)) (Some (25 # 2))
                      "hello again"]).
  { reflexivity. }
  split; [exact E|].
  exact (proj1 (proj2 (proj2 (coalesce_keeps_order [a; b] (Some 2) E)))).
Defined.

(** ** The compact view and the readable transcript *)

Lemma append_assoc_str (a b c : string) :
  ((a ++ b) ++ c)%string = (a ++ (b ++ c))%string.
Proof.
  induction a as [|x a IH]; simpl; [reflexivity | rewrite IH; reflexivity].
Qed.

Lemma has_newline_app (a b : string) :
  has_newline (a ++ b) = has_newline a || has_newline b.
Proof.
  induction a as [|x a IH]; simpl; [reflexivity|].
  rewrite IH, orb_assoc. reflexivity.
Qed.

(** X13.  The compact view has one line for each utterance, in order,
    the label in square brackets before the text, provided no label and
    no text holds a newline; it is the empty string for no utterance. *)
Theorem compact_view_lines (repr_other : json -> string)
  (us : list utterance) :
  Forall (fun u => has_newline (py_str repr_other (speaker_label u)) = false
                   /\ has_newline (text u) = false) us ->
  lines (build_raw_for_bedrock repr_other us)
  = map (fun u => ("[" ++ py_str repr_other (speaker_label u) ++ "] "
                   ++ text u)%string) us
  /\ List.length (lines (build_raw_for_bedrock repr_other us))
     = List.length us.
Proof.
  intro H.
  assert (L : lines (build_raw_for_bedrock repr_other us)
              = map (raw_line repr_other) us).
  { unfold build_raw_for_bedrock. apply lines_concat.
    apply Forall_map. eapply Forall_impl; [|exact H].
    intros u [Hl Ht]. split; [discriminate|].
    unfold raw_line. rewrite !has_newline_app, Hl, Ht. reflexivity. }
  split; [exact L|]. rewrite L. apply length_map.
Qed.

(** X13, at the two utterances of the hearing. *)
Lemma compact_view_lines_witness :
  lines (build_raw_for_bedrock show hearing)
  = ["[spk_0] hello"; "[spk_1] again"].
Proof.
  apply (proj1 (@compact_view_lines show hearing
                  ltac:(repeat constructor))).
Defined.

Lemma lines_blanks (k : nat) (s : string) :
  lines (repeat_string nl k ++ s) = repeat EmptyString k ++ lines s.
Proof.
  induction k as [|k IH]; simpl; [reflexivity|].
  rewrite IH. reflexivity.
Qed.

Lemma lines_layout (k : nat) (blocks : list string) :
  Forall (fun b => has_newline b = false) blocks ->
  blocks <> [] ->
  lines (String.concat (repeat_string nl (S k)) blocks ++ nl)
  = spaced k blocks.
Proof.
  induction blocks as [|b blocks IH]; intros H Hne; [contradiction|].
  inversion H as [|? ? Hb Hrest]; subst.
  destruct blocks as [|b' rest].
  - simpl. change (b ++ nl)%string with (b ++ String newline "")%string.
    rewrite (lines_row b _ Hb). reflexivity.
  - change (String.concat (repeat_string nl (S k)) (b :: b' :: rest))
      with (b ++ repeat_string nl (S k)
              ++ String.concat (repeat_string nl (S k)) (b' :: rest))%string.
    rewrite !append_assoc_str.
    change (repeat_string nl (S k)
              ++ String.concat (repeat_string nl (S k)) (b' :: rest) ++ nl)%string
      with (String newline
              (repeat_string nl k
                 ++ (String.concat (repeat_string nl (S k)) (b' :: rest)
                       ++ nl)))%string.
    rewrite (lines_row b _ Hb), lines_blanks, IH;
      [reflexivity | exact Hrest | discriminate].
Qed.

Lemma diarized_blocks_names (repr_other : json -> string)
  (m : speaker_map) (us : list utterance) :
  forall blocks,
    diarized_blocks repr_other us m = Ok blocks ->
    blocks
    = map (fun u => block repr_other
                      (match mapped m (speaker_label u) with
                       | Some n => n
                       | None => unknown_speaker
                       end) u) us.
Proof.
  induction us as [|u us IH]; intros blocks H; simpl in H.
  - injection H as <-. reflexivity.
  - apply bind_ok in H. destruct H as [name [Hn H]].
    apply bind_ok in H. destruct H as [bs [Hbs H]].
    injection H as <-. simpl. rewrite <- (IH _ Hbs). f_equal.
    unfold display_name, map_get, mapped, dict_get in *.
    destruct (speaker_label u); try discriminate;
      injection Hn as <-; reflexivity.
Qed.

(** X14.  The readable transcript always ends with a newline, and is
    that newline alone for no utterance.  Each block carries, between
    asterisks, the value the map gives the label as an f-string writes
    it, or the unknown speaker sentinel when the label is not a key.
    Read line by line, the blocks are separated by [blank_lines] empty
    lines when that number is not negative and no block holds a
    newline; when it is negative the separator is empty and the blocks
    run together. *)
Theorem readable_transcript_layout (repr_other : json -> string)
  (us : list utterance) (m : speaker_map)
  (blank_lines : Z) (blocks : list string) :
  diarized_blocks repr_other us m = Ok blocks ->
  blocks
  = map (fun u => ("**" ++ py_str repr_other
                             (match mapped m (speaker_label u) with
                              | Some n => n
                              | None => JStr "[UNKNOWN SPEAKER]"
                              end)
                   ++ ":** " ++ text u)%string) us
  /\ format_diarized_lines_no_ts repr_other us m blank_lines
     = Ok (String.concat (separator blank_lines) blocks ++ nl)%string
  /\ (us = [] ->
      format_diarized_lines_no_ts repr_other us m blank_lines = Ok nl)
  /\ ((blank_lines < 0)%Z -> separator blank_lines = EmptyString)
  /\ ((0 <= blank_lines)%Z ->
      blocks <> [] ->
      Forall (fun b => has_newline b = false) blocks ->
      lines (String.concat (separator blank_lines) blocks ++ nl)
      = spaced (Z.to_nat blank_lines) blocks).
Proof.
  intro H. split; [apply (diarized_blocks_names repr_other m us H)|].
  split; [unfold format_diarized_lines_no_ts; rewrite H; reflexivity|].
  split; [intros ->; simpl in H; injection H as <-; reflexivity|].
  split.
  - intro K. unfold separator.
    replace (Z.to_nat (blank_lines + 1)) with O by lia. reflexivity.
  - intros K Hne Hnl. unfold separator.
    replace (Z.to_nat (blank_lines + 1)) with (S (Z.to_nat blank_lines))
      by lia.
    apply lines_layout; assumption.
Qed.

(** X14, at the two utterances of the hearing with the two empty lines
    of the handler. *)
Lemma readable_transcript_layout_witness :
  format_diarized_lines_no_ts show hearing chair_map 2
  = Ok (String.concat (separator 2)
          ["**Chair Cruz:** hello"; "**[UNKNOWN SPEAKER]:** again"] ++ nl)%string
  /\ lines (String.concat (separator 2)
              ["**Chair Cruz:** hello"; "**[UNKNOWN SPEAKER]:** again"]
            ++ nl)
     = ["**Chair Cruz:** hello"; ""; ""; "**[UNKNOWN SPEAKER]:** again"].
Proof.
  assert (B : diarized_blocks show hearing chair_map
              = Ok ["**Chair Cruz:** hello";
                    "**[UNKNOWN SPEAKER]:** again"]).
  { reflexivity. }
  destruct (readable_transcript_layout show hearing chair_map 2 B)
    as (_ & F & _ & _ & L).
  split; [exact F|].
  apply L.
  - discriminate.
  - discriminate.
  - repeat constructor.
Defined.

(** ** Labels that cannot be looked up *)

Lemma diarized_blocks_total (repr_other : json -> string)
  (m : speaker_map) (us : list utterance) :
  Forall (fun u => hashable (speaker_label u) = true) us ->
  exists blocks, diarized_blocks repr_other us m = Ok blocks.
Proof.
  induction us as [|u us IH]; intro H.
  - exists []. reflexivity.
  - inversion H as [|? ? Hu Hus]; subst.
    destruct (IH Hus) as [bs Hbs]. simpl. rewrite Hbs.
    unfold display_name, map_get.
    destruct (speaker_label u); try discriminate; simpl; eauto.
Qed.

Lemma lookup_raises (repr_other : json -> string) (m : speaker_map)
  (us : list utterance) :
  Exists (fun u => hashable (speaker_label u) = false) us ->
  jsonl_rows us m = Err TypeError
  /\ diarized_blocks repr_other us m = Err TypeError.
Proof.
  induction 1 as [u us Hu | u us Hus IH]; simpl.
  - unfold name_of, display_name, map_get.
    destruct (speaker_label u); try discriminate; split; reflexivity.
  - destruct IH as [-> ->].
    unfold name_of, display_name, map_get.
    destruct (speaker_label u); split; reflexivity.
Qed.

(** X18.  The two renderers that look the label up in the name map
    return for every list whose labels are strings, numbers, booleans
    or null, and raise a type error as soon as one label is a list or a
    dict, which no dict can have as a key. *)
Theorem renderers_raise_on_unhashable (dumps repr_other : json -> string)
  (us : list utterance) (m : speaker_map) (blank_lines : Z) :
  (Forall (fun u => hashable (speaker_label u) = true) us ->
   is_ok (utterances_to_jsonl dumps us m) = true
   /\ is_ok (format_diarized_lines_no_ts repr_other us m blank_lines)
      = true)
  /\ (Exists (fun u => hashable (speaker_label u) = false) us ->
      utterances_to_jsonl dumps us m = Err TypeError
      /\ format_diarized_lines_no_ts repr_other us m blank_lines
         = Err TypeError).
Proof.
  split; intro H.
  - destruct (jsonl_rows_total m H) as [rows Hr].
    destruct (diarized_blocks_total repr_other m H) as [bs Hb].
    unfold utterances_to_jsonl, format_diarized_lines_no_ts.
    rewrite Hr, Hb. split; reflexivity.
  - destruct (lookup_raises repr_other m H) as [Hr Hb].
    unfold utterances_to_jsonl, format_diarized_lines_no_ts.
    rewrite Hr, Hb. split; reflexivity.
Qed.

(** X18, at an utterance whose label is a list. *)
Lemma renderers_raise_on_unhashable_witness :
  let u := Utterance (JList [JStr "spk_0"]) (Some 0) (Some 1) "hello" in
  Exists (fun u => hashable (speaker_label u) = false) [u]
  /\ utterances_to_jsonl show [u] chair_map = Err TypeError
  /\ format_diarized_lines_no_ts show [u] chair_map 2 = Err TypeError.
Proof.
  intro u.
  assert (E : Exists (fun u => hashable (speaker_label u) = false) [u]).
  { left. reflexivity. }
  split; [exact E|].
  exact (proj2 (renderers_raise_on_unhashable show show [u] chair_map 2) E).
Defined.

(** ** The JSON object in the reply of the naming model *)

Lemma from_first_skip (c : ascii) (pre s : string) :
  has_char c pre = false ->
  from_first c (pre ++ String c s) = Some (String c s).
Proof.
  induction pre as [|a pre IH]; simpl; intro H.
  - rewrite Ascii.eqb_refl. reflexivity.
  - apply orb_false_iff in H. destruct H as [Ha Hp].
    rewrite Ha. apply IH. exact Hp.
Qed.

Lemma from_first_none (c : ascii) (s : string) :
  has_char c s = false -> from_first c s = None.
Proof.
  induction s as [|a s IH]; simpl; intro H; [reflexivity|].
  apply orb_false_iff in H. destruct H as [Ha Hs].
  rewrite Ha. apply IH. exact Hs.
Qed.

Lemma upto_last_none (c : ascii) (s : string) :
  has_char c s = false -> upto_last c s = None.
Proof.
  induction s as [|a s IH]; simpl; intro H; [reflexivity|].
  apply orb_false_iff in H. destruct H as [Ha Hs].
  rewrite (IH Hs), Ha. reflexivity.
Qed.

Lemma upto_last_cut (c : ascii) (mid post : string) :
  has_char c post = false ->
  upto_last c (mid ++ String c post) = Some (mid ++ String c EmptyString)%string.
Proof.
  intro H. induction mid as [|a mid IH]; simpl.
  - rewrite (upto_last_none c post H), Ascii.eqb_refl. reflexivity.
  - rewrite IH. reflexivity.
Qed.

Lemma from_first_split (c : ascii) (s t : string) :
  from_first c s = Some t ->
  exists pre rest, s = (pre ++ t)%string /\ t = String c rest.
Proof.
  induction s as [|a s IH]; simpl; intro H; [discriminate|].
  destruct (Ascii.eqb a c) eqn:E.
  - injection H as <-. apply Ascii.eqb_eq in E. subst a.
    exists EmptyString, s. split; reflexivity.
  - destruct (IH H) as [pre [rest [-> ->]]].
    exists (String a pre), rest. split; reflexivity.
Qed.

Lemma upto_last_split (c : ascii) (s p : string) :
  upto_last c s = Some p ->
  exists body post,
    p = (body ++ String c EmptyString)%string
    /\ s = (p ++ post)%string
    /\ has_char c post = false.
Proof.
  revert p. induction s as [|a s IH]; simpl; intros p H; [discriminate|].
  destruct (upto_last c s) as [q|] eqn:U.
  - injection H as <-. destruct (IH q eq_refl) as [body [post [-> [-> Hp]]]].
    exists (String a body), post. repeat split. exact Hp.
  - destruct (Ascii.eqb a c) eqn:E; [|discriminate].
    injection H as <-. apply Ascii.eqb_eq in E. subst a.
    exists EmptyString, s. repeat split.
    clear IH. induction s as [|b s IHs]; [reflexivity|].
    simpl in U. destruct (upto_last c s); [discriminate|].
    destruct (Ascii.eqb b c) eqn:Eb; [discriminate|].
    simpl. rewrite Eb. apply IHs. reflexivity.
Qed.

(** X15.  The text taken from the reply of the naming model runs from
    the first opening brace to the last closing brace after it: prose
    or a code fence around a JSON object is dropped, nested braces
    inside it are kept.  Whatever is taken starts with an opening brace,
    ends with a closing brace, is a piece of the reply, and is taken
    whole when searched again; a reply without an opening brace, or
    without a closing brace after the first opening one, gives
    nothing. *)
Theorem extract_object_frame :
  (forall pre mid post,
      has_char lbrace pre = false ->
      has_char rbrace post = false ->
      extract_object
        (pre ++ String lbrace (mid ++ String rbrace post))
      = Some (String lbrace (mid ++ String rbrace EmptyString)))
  /\ (forall reply m,
        extract_object reply = Some m ->
        exists pre body post,
          m = String lbrace (body ++ String rbrace EmptyString)
          /\ reply = (pre ++ m ++ post)%string
          /\ extract_object m = Some m)
  /\ (forall reply,
        has_char lbrace reply = false -> extract_object reply = None)
  /\ (forall pre rest,
        has_char lbrace pre = false ->
        has_char rbrace rest = false ->
        extract_object (pre ++ String lbrace rest) = None).
Proof.
  split; [|split; [|split]].
  - intros pre mid post Hpre Hpost. unfold extract_object.
    rewrite (from_first_skip _ _ _ Hpre), (upto_last_cut _ _ _ Hpost).
    reflexivity.
  - intros reply m H. unfold extract_object in H.
    destruct (from_first lbrace reply) as [[|a rest]|] eqn:F;
      try discriminate.
    destruct (upto_last rbrace rest) as [p|] eqn:U; [|discriminate].
    injection H as <-.
    destruct (from_first_split _ _ F) as [pre [rest' [-> E]]].
    injection E as -> <-.
    destruct (upto_last_split _ _ U) as [body [post [-> [-> Hpost]]]].
    exists pre, body, post. split; [reflexivity|]. split.
    + simpl. rewrite append_assoc_str. reflexivity.
    + unfold extract_object.
      change (from_first lbrace
                (String lbrace (body ++ String rbrace EmptyString)))
        with (Some (String lbrace (body ++ String rbrace EmptyString))).
      cbv beta iota.
      rewrite (upto_last_cut rbrace body EmptyString eq_refl). reflexivity.
  - intros reply H. unfold extract_object.
    rewrite (from_first_none _ _ H). reflexivity.
  - intros pre rest Hpre Hrest. unfold extract_object.
    rewrite (from_first_skip _ _ _ Hpre), (upto_last_none _ _ Hrest).
    reflexivity.
Qed.

(** X15, at a reply that wraps the object in prose. *)
Lemma extract_object_frame_witness :
  extract_object "Here you go: {a: {b}} Thanks." = Some "{a: {b}}".
Proof.
  apply (proj1 extract_object_frame "Here you go: " "a: {b}" " Thanks.");
    reflexivity.
Defined.

(** ** The inputs of the handler *)

Section EventFacts.

Variable loads : string -> option json.

(** X16.  Where the handler takes its inputs from.  A body that is a
    JSON text of an object with a bucket and a key wins over the top
    level of the event.  When the body gives no bucket, the bucket and
    the key are both read from the top level, a key found in the body
    being dropped, and the base filename is the one of the top level,
    else the one of the body, else the default.  When the body gives a
    bucket and no key, the top level is not read, so a key that sits
    there is not found.  Without the request body of the agent, inputs
    that are still incomplete are a value error, in each of these
    cases. *)
Theorem event_inputs_precedence (event : pydict) :
  (forall body b,
      lookup "body" event = Some (JStr body) ->
      loads body = Some (JDict b) ->
      truthy (py_or (dict_get b "transcript_bucket" JNull)
                    (dict_get b "s3_bucket" JNull)) = true ->
      truthy (py_or (dict_get b "transcript_key" JNull)
                    (dict_get b "s3_key" JNull)) = true ->
      parse_event loads event
      = Ok (Inputs (py_or (dict_get b "transcript_bucket" JNull)
                          (dict_get b "s3_bucket" JNull))
                   (py_or (dict_get b "transcript_key" JNull)
                          (dict_get b "s3_key" JNull))
                   (dict_get b "base_filename"
                      (JStr "Legislative_Meeting_Output"))))
  /\ (truthy (s3_bucket (from_body loads event default_inputs)) = false ->
      truthy (dict_get event "transcript_bucket" JNull) = true ->
      truthy (dict_get event "transcript_key" JNull) = true ->
      parse_event loads event
      = Ok (Inputs (dict_get event "transcript_bucket" JNull)
                   (dict_get event "transcript_key" JNull)
                   (dict_get event "base_filename"
                      (base_filename
                         (from_body loads event default_inputs)))))
  /\ (truthy (s3_bucket (from_body loads event default_inputs)) = false ->
      lookup "requestBody" event = None ->
      truthy (dict_get event "transcript_bucket" JNull)
      && truthy (dict_get event "transcript_key" JNull) = false ->
      parse_event loads event = Err ValueError)
  /\ (lookup "body" event = None ->
      from_body loads event default_inputs = default_inputs)
  /\ (forall body b,
        lookup "body" event = Some (JStr body) ->
        loads body = Some (JDict b) ->
        truthy (py_or (dict_get b "transcript_bucket" JNull)
                      (dict_get b "s3_bucket" JNull)) = true ->
        truthy (py_or (dict_get b "transcript_key" JNull)
                      (dict_get b "s3_key" JNull)) = false ->
        from_top event (from_body loads event default_inputs)
        = from_body loads event default_inputs
        /\ (lookup "requestBody" event = None ->
            parse_event loads event = Err ValueError))
  /\ (lookup "requestBody" event = None ->
      complete (from_top event (from_body loads event default_inputs))
      = false ->
      parse_event loads event = Err ValueError).
Proof.
  split; [|split; [|split; [|split; [|split]]]].
  - intros body b Hb Hl Tb Tk.
    unfold parse_event, from_body. rewrite Hb, Hl.
    unfold from_top. simpl s3_bucket. rewrite Tb.
    unfold from_agent, complete. simpl. rewrite Tb, Tk. reflexivity.
  - intros Fb Tb Tk. unfold parse_event, from_top. rewrite Fb.
    unfold from_agent, complete. simpl. rewrite Tb, Tk. reflexivity.
  - intros Fb Hr Hc. unfold parse_event, from_top. rewrite Fb.
    unfold from_agent, complete. simpl. rewrite Hc, Hr. simpl.
    rewrite Hc. reflexivity.
  - intro Hb. unfold from_body. rewrite Hb. reflexivity.
  - intros body b Hb Hl Tb Tk.
    assert (T : from_top event (from_body loads event default_inputs)
                = from_body loads event default_inputs).
    { unfold from_body. rewrite Hb, Hl.
      unfold from_top. simpl s3_bucket. rewrite Tb. reflexivity. }
    split; [exact T|].
    intro Hr. unfold parse_event. rewrite T.
    unfold from_body. rewrite Hb, Hl.
    unfold from_agent, complete. simpl. rewrite Tb, Tk, Hr. simpl.
    rewrite Tb, Tk. reflexivity.
  - intros Hr Hc. unfold parse_event, from_agent.
    rewrite Hc, Hr. simpl. rewrite Hc. reflexivity.
Qed.

End EventFacts.

(** X16, at an event with a bucket and a key in its body and another
    key at its top level, and at the same event when its body names
    the bucket only. *)
Lemma event_inputs_precedence_witness :
  parse_event body_loads body_event
  = Ok (Inputs (JStr "hearings") (JStr "raw/seg.json")
          (JStr "SEG_2025-06-12"))
  /\ (lookup "transcript_key" body_event = Some (JStr "top.json")
      /\ parse_event bucket_only_loads body_event = Err ValueError).
Proof.
  split.
  - apply (proj1 (event_inputs_precedence body_loads body_event)
             "the body"
             [("s3_bucket", JStr "hearings");
              ("transcript_key", JStr "raw/seg.json");
              ("base_filename", JStr "SEG_2025-06-12")]);
      reflexivity.
  - split; [reflexivity|].
    apply (proj2 (proj1 (proj2 (proj2 (proj2 (proj2
             (event_inputs_precedence bucket_only_loads body_event)))))
             "the body" [("s3_bucket", JStr "hearings")]
             eq_refl eq_refl eq_refl eq_refl)).
    reflexivity.
Defined.

(** ** The handler *)

Lemma coalesce_none_alternate (us out : list utterance) :
  coalesce_utterances us None = Ok out -> speakers_alternate out.
Proof.
  destruct us as [|first rest]; simpl; intro H.
  - injection H as <-. exact I.
  - destruct (@coalesce_loop_settles None rest [] first out H)
      as [last' [tail [-> [_ [_ Ht]]]]].
    apply settled_alternate. exact Ht.
Qed.

Section HandlerFacts.

Variable float_of_str : string -> option Q.
Variable loads : string -> option json.
Variable dumps : json -> string.
Variable repr_other : json -> string.
Variable fetch : json -> json -> result string.
Variable put : json -> string -> string -> result unit.
Variable oracle : string -> speaker_map.

Abbreviation handler :=
  (lambda_handler float_of_str loads dumps repr_other fetch put oracle).
Abbreviation prepared :=
  (prepare float_of_str loads dumps repr_other fetch oracle).

Lemma prepare_outputs (event : pydict) (o : outputs) :
  prepared event = Ok o ->
  exists body doc us coalesced,
    parse_event loads event = Ok (out_inputs o)
    /\ fetch (s3_bucket (out_inputs o)) (transcript_key (out_inputs o))
       = Ok body
    /\ loads body = Some doc
    /\ reconstruct_utterances_with_timestamps float_of_str doc default_gap
       = Ok us
    /\ us <> []
    /\ coalesce_utterances us None = Ok coalesced
    /\ format_diarized_lines_no_ts repr_other coalesced
         (oracle (build_raw_for_bedrock repr_other us)) 2
       = Ok (final_txt o)
    /\ utterances_to_jsonl dumps us
         (oracle (build_raw_for_bedrock repr_other us))
       = Ok (final_jsonl o).
Proof.
  unfold prepare. intro H.
  bind_inv H. rename a into i, E into Hi.
  bind_inv H. rename a into body, E into Hf.
  bind_inv H. rename a into doc, E into Hl.
  bind_inv H. rename a into us, E into Hr.
  destruct us as [|u us]; [discriminate|]. simpl nonempty in H.
  cbv beta iota zeta in H.
  bind_inv H. rename a into coalesced, E into Hc.
  bind_inv H. rename a into txt, E into Ht.
  bind_inv H. rename a into jsonl, E into Hj.
  injection H as <-. simpl.
  destruct (loads body) as [d|] eqn:Ed; [|discriminate].
  injection Hl as ->.
  exists body, doc, (u :: us), coalesced.
  repeat split; try assumption. discriminate.
Qed.

(** X17.  The handler treats a reconstruction without any utterance as
    fatal: it raises a value error and has written nothing.  When it
    returns, it has written two objects in the bucket of its input,
    under the output prefix and the base filename: the readable
    transcript, rendered with two empty lines from the utterances
    coalesced without a gap, in which no two neighbours have one label,
    and the record stream, rendered from the utterances as they were
    reconstructed, both with the names of one call of the oracle on the
    compact view.  When it raises it has written at most one object. *)
Theorem handler_outputs (event : pydict) :
  (forall i body doc,
      parse_event loads event = Ok i ->
      fetch (s3_bucket i) (transcript_key i) = Ok body ->
      loads body = Some doc ->
      reconstruct_utterances_with_timestamps float_of_str doc default_gap
      = Ok [] ->
      handler event = ([], Err ValueError))
  /\ (forall ws resp,
        handler event = (ws, Ok resp) ->
        exists i body doc us coalesced txt jsonl,
          parse_event loads event = Ok i
          /\ fetch (s3_bucket i) (transcript_key i) = Ok body
          /\ loads body = Some doc
          /\ reconstruct_utterances_with_timestamps float_of_str doc
               default_gap = Ok us
          /\ us <> []
          /\ coalesce_utterances us None = Ok coalesced
          /\ speakers_alternate coalesced
          /\ format_diarized_lines_no_ts repr_other coalesced
               (oracle (build_raw_for_bedrock repr_other us)) 2 = Ok txt
          /\ utterances_to_jsonl dumps us
               (oracle (build_raw_for_bedrock repr_other us)) = Ok jsonl
          /\ ws = [(s3_bucket i,
                    (OUTPUT_PREFIX ++ py_str repr_other (base_filename i)
                     ++ "_diarized.txt")%string, txt);
                   (s3_bucket i,
                    (OUTPUT_PREFIX ++ py_str repr_other (base_filename i)
                     ++ "_diarized.jsonl")%string, jsonl)]
          /\ field "diarized_text_preview" resp
             = Some (JStr (substring 0 1000 txt))
          /\ field "base_filename" resp = Some (base_filename i))
  /\ (forall ws e,
        handler event = (ws, Err e) -> (List.length ws <= 1)%nat).
Proof.
  split; [|split].
  - intros i body doc Hi Hf Hl Hr.
    unfold lambda_handler, prepare. rewrite Hi. simpl.
    rewrite Hf. simpl. rewrite Hl. simpl. rewrite Hr. reflexivity.
  - intros ws resp H. unfold lambda_handler in H.
    destruct (prepared event) as [o|e] eqn:P; [|discriminate].
    destruct (put _ _ (final_txt o)) as [[]|e]; [|discriminate].
    destruct (put _ _ (final_jsonl o)) as [[]|e]; [|discriminate].
    injection H as <- <-.
    destruct (prepare_outputs event P)
      as (body & doc & us & coalesced & Hi & Hf & Hl & Hr & Hne & Hc
          & Ht & Hj).
    exists (out_inputs o), body, doc, us, coalesced, (final_txt o),
      (final_jsonl o).
    repeat split; try assumption; try reflexivity.
    apply (coalesce_none_alternate us Hc).
  - intros ws e H. unfold lambda_handler in H.
    destruct (prepared event) as [o|x]; [|injection H as <- _; simpl; lia].
    destruct (put _ _ (final_txt o)) as [[]|x];
      [|injection H as <- _; simpl; lia].
    destruct (put _ _ (final_jsonl o)) as [[]|x]; [discriminate|].
    injection H as <- _. simpl. lia.
Qed.

End HandlerFacts.

(** X17, at a store whose transcript has one word without a label, and
    at a store whose transcript is the pause example. *)
Lemma handler_outputs_witness :
  lambda_handler decimal body_loads show show one_transcript accept
    chair_oracle body_event
  = ([], Err ValueError)
  /\ exists ws resp,
       lambda_handler decimal pause_loads show show one_transcript accept
         chair_oracle top_event = (ws, Ok resp)
       /\ List.length ws = 2%nat
       /\ field "base_filename" resp
          = Some (JStr "Legislative_Meeting_Output").
Proof.
  split.
  - apply (proj1 (handler_outputs decimal body_loads show show
                    one_transcript accept chair_oracle body_event)
             (Inputs (JStr "hearings") (JStr "raw/seg.json")
                (JStr "SEG_2025-06-12"))
             "the transcript" (unlabelled_word (JNum 0) (JNum 1) "hello"));
      reflexivity.
  - destruct (lambda_handler decimal pause_loads show show one_transcript
                accept chair_oracle top_event) as [ws [resp|e]] eqn:E;
      [|vm_compute in E; discriminate].
    exists ws, resp. split; [reflexivity|].
    destruct (proj1 (proj2 (handler_outputs decimal pause_loads show show
                              one_transcript accept chair_oracle
                              top_event)) ws resp E)
      as (i & body & doc & us & coalesced & txt & jsonl & Hi & _ & _ & _
          & _ & _ & _ & _ & _ & Hw & _ & Hb).
    split; [rewrite Hw; reflexivity|].
    rewrite Hb. vm_compute in Hi. injection Hi as <-. reflexivity.
Defined.

(** ** The request body of the agent *)

Lemma first_value_skip (name : string) (before : list json) (rest : list json) :
  Forall (other_name name) before ->
  first_value name (before ++ rest) = first_value name rest.
Proof.
  induction 1 as [|p before [d [-> Hd]] _ IH]; simpl; [reflexivity|].
  rewrite Hd. exact IH.
Qed.

(** X19.  The fallback to the format of the agent takes, for the bucket
    and for the key, the value of the first property of that name,
    properties of other names before it being passed over and whatever
    follows it not being read; when no property has the name the result
    is None; a property that is not a dict raises an attribute error if
    it is met before a match, and a matching property without a value
    raises a key error. *)
Theorem agent_properties (name : string) :
  (forall before d after,
      Forall (other_name name) before ->
      py_eq (dict_get d "name" JNull) (JStr name) = true ->
      first_value name (before ++ JDict d :: after)
      = match lookup "value" d with
        | Some v => Ok v
        | None => Err KeyError
        end)
  /\ (forall props,
        Forall (other_name name) props ->
        first_value name props = Ok JNull)
  /\ (forall before p after,
        Forall (other_name name) before ->
        is_dict p = false ->
        first_value name (before ++ p :: after) = Err AttributeError).
Proof.
  split; [|split].
  - intros before d after Hb Hd.
    rewrite (first_value_skip _ Hb). simpl. rewrite Hd. reflexivity.
  - intros props Hp.
    rewrite <- (app_nil_r props), (first_value_skip _ Hp). reflexivity.
  - intros before p after Hb Hp.
    rewrite (first_value_skip _ Hb). simpl.
    destruct p; try reflexivity. discriminate.
Qed.

(** X19, at the properties of a request with two buckets. *)
Lemma agent_properties_witness :
  first_value "s3_bucket"
    ([property "transcript_key" (JStr "raw/seg.json")]
       ++ JDict [("name", JStr "s3_bucket"); ("value", JStr "hearings")]
       :: [property "s3_bucket" (JStr "other"); JNull])
  = Ok (JStr "hearings").
Proof.
  apply (proj1 (agent_properties "s3_bucket")
           [property "transcript_key" (JStr "raw/seg.json")]
           [("name", JStr "s3_bucket"); ("value", JStr "hearings")]
           [property "s3_bucket" (JStr "other"); JNull]).
  - constructor; [|constructor].
    exists [("name", JStr "transcript_key");
            ("value", JStr "raw/seg.json")].
    split; reflexivity.
  - reflexivity.
Defined.

(** ** The times of the utterances are times of the tokens *)

Lemma flush_spans (spans : list (Q * Q)) (b : buffer)
  (us us' : list utterance) :
  Forall (fun u => from_spans spans (start_time u) (end_time u)) us ->
  (truthy (cur_speaker_label b) = true ->
   from_spans spans (cur_start_time b) (cur_end_time b)) ->
  _flush b us = Ok us' ->
  Forall (fun u => from_spans spans (start_time u) (end_time u)) us'.
Proof.
  intros Hus Hb. unfold _flush. destruct (emits b) eqn:E.
  - intro H. bind_inv H. injection H as <-.
    apply Forall_app. split; [exact Hus|].
    constructor; [|constructor].
    unfold emits in E. apply andb_true_iff in E.
    exact (Hb (proj1 E)).
  - intro H. injection H as <-. exact Hus.
Qed.

Section SpanFacts.

Variable float_of_str : string -> option Q.

Lemma pronunciation_spans (spans : list (Q * Q)) ranges gap d content
  (s s' : seg_state) (st en : Q) :
  spans_state spans s ->
  py_float float_of_str (dict_get d "start_time" (JNum 0)) = Ok st ->
  py_float float_of_str (dict_get d "end_time" (JNum 0)) = Ok en ->
  In st (map fst spans) -> In en (map snd spans) ->
  pronunciation float_of_str ranges gap d content s = Ok s' ->
  spans_state spans s'.
Proof.
  intros [Hus Hcur] Hst Hen Ist Ien H. unfold pronunciation in H.
  rewrite Hst, Hen in H. simpl in H.
  destruct (flush_trigger gap s _ st).
  - destruct (_flush (cur s) (utterances s)) as [us1|x] eqn:F;
      [|discriminate].
    simpl in H. injection H as <-. split; simpl.
    + eapply flush_spans; eassumption.
    + intros _. exists st, en. auto.
  - simpl in H. bind_inv H. injection H as <-. split; simpl.
    + exact Hus.
    + intro T. destruct (Hcur T) as (x & y & Hx & _ & Ix & _).
      exists x, en. auto.
Qed.

Lemma seg_loop_spans (spans : list (Q * Q)) ranges gap (items : list json) :
  forall s s',
    incl (timeline float_of_str items) spans ->
    spans_state spans s ->
    seg_loop float_of_str ranges gap items s = Ok s' ->
    spans_state spans s'.
Proof.
  induction items as [|it rest IH]; intros s s' Hin Hs H; simpl in H.
  - injection H as <-. exact Hs.
  - bind_inv H. rename a into s1. simpl in Hin.
    destruct (span_of float_of_str it) as [[st en]|] eqn:Esp.
    + destruct (span_of_step _ _ Esp)
        as (d & a0 & more & -> & Ea & Et & Est & Een).
      unfold seg_step in E. rewrite Ea, Et in E.
      assert (Hp : In (st, en) spans) by (apply Hin; left; reflexivity).
      apply (IH s1 s'); [|  | exact H].
      * intros p Hp'. apply Hin. right. exact Hp'.
      * apply (@pronunciation_spans spans ranges gap d (content_of a0)
                 s s1 st en Hs Est Een); [| | exact E].
        -- apply (in_map fst) in Hp. exact Hp.
        -- apply (in_map snd) in Hp. exact Hp.
    + apply (IH s1 s'); [exact Hin | | exact H].
      destruct (seg_step_no_span _ _ _ _ _ Esp E) as [-> | [c ->]].
      * exact Hs.
      * destruct Hs as [Hus Hcur]. split; assumption.
Qed.

(** X20.  The reconstruction invents no time: the start time of every
    utterance is the start time of a pronunciation token that reached
    the segmentation, and its end time is the end time of one. *)
Theorem utterance_times_are_token_times (transcribe : json)
  (gap_seconds : Q) (items : list json) (us : list utterance) :
  read_tokens float_of_str transcribe = Ok items ->
  reconstruct_utterances_with_timestamps float_of_str transcribe gap_seconds
  = Ok us ->
  Forall (fun u =>
            exists st en,
              start_time u = Some st /\ end_time u = Some en
              /\ In st (map fst (timeline float_of_str items))
              /\ In en (map snd (timeline float_of_str items))) us.
Proof.
  intros Hitems H. rewrite reconstruct_read_tokens, Hitems in H.
  simpl in H. bind_inv H. unfold segment in H. bind_inv H.
  assert (I : spans_state (timeline float_of_str items) init_state).
  { split; [constructor | discriminate]. }
  destruct (@seg_loop_spans (timeline float_of_str items) a gap_seconds
              items init_state a0 (incl_refl _) I E0) as [Hus Hcur].
  exact (@flush_spans _ (cur a0) (utterances a0) us Hus Hcur H).
Qed.

End SpanFacts.

(** X20, at the pause example. *)
Lemma utterance_times_are_token_times_witness :
  Forall (fun u =>
            exists st en,
              start_time u = Some st /\ end_time u = Some en
              /\ In st (map fst (timeline decimal pause_items))
              /\ In en (map snd (timeline decimal pause_items)))
    [Utterance spk_0 (Some (19 # 2)) (Some 10) "hello";
     Utterance spk_0 (Some 12) (Some (25 # 2)) "again"].
Proof.
  apply (@utterance_times_are_token_times decimal (transcript pause_items)
           default_gap pause_items).
  - vm_compute. reflexivity.
  - vm_compute. reflexivity.
Defined.
